(** * TeamCache Manager API client (api-gateway/examples/python-client.py)

    A shallow embedding of the example client: the REST wrapper
    [TeamCacheClient], its polling and batch helpers, and the streaming
    listener [MetricsMonitor].  The HTTP server, the websocket peer and the
    wall clock are the environment: they are given to the model as scripts of
    answers, and everything the client does to the outside (requests, console
    lines, sleeps) is recorded in a log. *)

From Stdlib Require Import ZArith QArith Ascii.
From stdpp Require Import base strings list gmap.

Set Warnings "-register-all".

Local Open Scope Z_scope.

(** ** Python values

    Decoded JSON documents and the Python values the client builds are the
    same universe: [None], booleans, integers, floats, strings, lists and
    dictionaries with string keys. *)

Inductive json :=
| JNull
| JBool (b : bool)
| JInt (n : Z)
| JFloat (q : Q)
| JStr (s : string)
| JArr (items : list json)
| JObj (fields : gmap string json).

(** Python truth value ([if v:], [not v]). *)
Definition truthy (v : json) : bool :=
  match v with
  | JNull => false
  | JBool b => b
  | JInt n => negb (n =? 0)
  | JFloat q => negb (Qeq_bool q 0)
  | JStr s => negb (String.eqb s "")
  | JArr items => match items with [] => false | _ :: _ => true end
  | JObj fields => negb (Nat.eqb (size fields) 0)
  end.

(** Truth value of an [Optional[List[str]]] argument: [None] and [[]] are
    both false. *)
Definition given (l : option (list string)) : bool :=
  match l with
  | Some (_ :: _) => true
  | _ => false
  end.

(** Truth value of an [Optional[str]] argument: [None] and [""] are false. *)
Definition given_str (s : option string) : bool :=
  match s with
  | Some s => negb (String.eqb s "")
  | None => false
  end.

Definition str_list (l : list string) : json := JArr (JStr <$> l).

(** [str.rstrip('/')]. *)
Fixpoint rstrip_slash (s : string) : string :=
  match s with
  | EmptyString => EmptyString
  | String c s' =>
      match rstrip_slash s' with
      | EmptyString => if Ascii.eqb c "/"%char then EmptyString else String c EmptyString
      | r => String c r
      end
  end.

(** ** Exceptions and outcomes

    Every constructor stands for a subclass of Python's [Exception].  The
    constructors are the classes the code can meet, not a partition of them:
    several are subclasses of [ValueError] as well, which [is_value_error]
    records.  [RequestException kind] is the failure of the [requests]
    library whose class is named [kind]. *)

Inductive exn :=
| ValueError (msg : string)
| OverflowError
| HTTPError (status : Z)
| RequestException (kind : string)
| JSONDecodeError
| KeyError (key : string)
| TypeError
| AttributeError
| TimeoutError
| ConnectionClosed
| CallbackError (msg : string).



(** A run returns, raises, or is cut short while it still waits for the
    environment ([Pending]). *)
Inductive outcome (A : Type) :=
| Return (a : A)
| Raise (e : exn)
| Pending.
Arguments Return {A} a.
Arguments Raise {A} e.
Arguments Pending {A}.

(** State passing with exceptions; the state survives a raise, as Python's
    heap does. *)
Definition M (S A : Type) : Type := S -> outcome A * S.

Definition ret {S A} (a : A) : M S A := fun s => (Return a, s).

Definition raise {S A} (e : exn) : M S A := fun s => (Raise e, s).

Definition bind {S A B} (c : M S A) (k : A -> M S B) : M S B :=
  fun s =>
    match c s with
    | (Return a, s') => k a s'
    | (Raise e, s') => (Raise e, s')
    | (Pending, s') => (Pending, s')
    end.

(** [try: c  except Exception as e: h e]. *)
Definition try_except {S A} (c : M S A) (h : exn -> M S A) : M S A :=
  fun s =>
    match c s with
    | (Raise e, s') => h e s'
    | r => r
    end.

Notation "x <- c ;; k" := (bind c (fun x => k))
  (at level 100, c at next level, right associativity).
Notation "c ;; k" := (bind c (fun _ => k))
  (at level 100, right associativity).

(** [v[k]] with a string key. *)
Definition getitem {S} (v : json) (k : string) : M S json :=
  match v with
  | JObj fields =>
      match fields !! k with
      | Some x => ret x
      | None => raise (KeyError k)
      end
  | _ => raise TypeError
  end.

(** [v.get(k, dflt)]; only dictionaries have the method. *)
Definition dict_get {S} (v : json) (k : string) (dflt : json) : M S json :=
  match v with
  | JObj fields => ret (default dflt (fields !! k))
  | _ => raise AttributeError
  end.

(** ** Console output

    An f-string is kept as its list of pieces; [Fixed2 v] is [{v:.2f}]. *)
Inductive fragment :=
| Lit (s : string)
| Val (v : json)
| Fixed2 (v : json)
| Exc (e : exn).

(** An integer is turned into a double before it is formatted; one that
    rounds beyond the largest double cannot be. *)
Definition too_large_for_float (n : Z) : bool :=
  2 ^ 1024 - 2 ^ 970 <=? Z.abs n.

(** [{v:.2f}] formats numbers (and booleans); anything else raises. *)
Definition fixed2 {S} (v : json) : M S fragment :=
  match v with
  | JInt n => if too_large_for_float n then raise OverflowError else ret (Fixed2 v)
  | JBool _ | JFloat _ => ret (Fixed2 v)
  | JStr _ => raise (ValueError "Unknown format code 'f' for object of type 'str'")
  | _ => raise TypeError
  end.

(** ** The HTTP layer (the [requests] library) *)

Inductive http_method := GET | POST | DELETE.

Record request := {
  req_method : http_method;
  req_url : string;
  req_headers : gmap string string;
  req_params : option (gmap string json);
  req_json : option (gmap string json)
}.

(** A response, with [decoded] the result of [Response.json()]: [None] when
    the body is not a JSON document. *)
Record response := {
  status_code : Z;
  decoded : option json
}.

(** What the network does with a request: it answers, or the transport fails
    ([ConnectionError], [Timeout], ...). *)
Inductive reply :=
| Answer (r : response)
| Refuse (kind : string).

Inductive event :=
| Http (r : request) (a : option reply)
| Printed (line : list fragment)
| Slept (seconds : Z).

(** The world of a run: the replies the network will give, in order, and the
    log of what the client did so far. *)
Record world := {
  script : list reply;
  log : list event
}.

Definition record (e : event) (w : world) : world :=
  {| script := script w; log := log w ++ [e] |}.

Definition print (line : list fragment) : M world unit :=
  fun w => (Return tt, record (Printed line) w).

(** [time.sleep] keeps the delay in 64-bit nanoseconds: a number of seconds
    beyond that range is an [OverflowError], a negative one a [ValueError],
    and nothing is slept in either case. *)
Definition max_sleep : Z := 9223372036.

Definition sleepable (seconds : Z) : bool :=
  (0 <=? seconds) && (seconds <=? max_sleep).

Definition sleep (seconds : Z) : M world unit :=
  if (seconds <? - max_sleep) || (max_sleep <? seconds) then raise OverflowError
  else if seconds <? 0 then raise (ValueError "sleep length must be non-negative")
  else fun w => (Return tt, record (Slept seconds) w).

(** Sending takes the next scripted reply; with none left the request is out
    and the run waits. *)
Definition send (r : request) : M world response :=
  fun w =>
    match script w with
    | [] => (Pending, record (Http r None) w)
    | Answer resp :: rest =>
        (Return resp, {| script := rest; log := log w ++ [Http r (Some (Answer resp))] |})
    | Refuse kind :: rest =>
        (Raise (RequestException kind),
         {| script := rest; log := log w ++ [Http r (Some (Refuse kind))] |})
    end.

(** Headers of a fresh [requests.Session()] (the version suffix of the
    user agent is left out). *)
Definition default_headers : gmap string string :=
  <["User-Agent" := "python-requests"]>
    (<["Accept-Encoding" := "gzip, deflate"]>
      (<["Accept" := "*/*"]>
        (<["Connection" := "keep-alive"]> ∅))).

Record Session := { session_headers : gmap string string }.

Definition new_session : Session := {| session_headers := default_headers |}.

(** [session.headers.update(h)]. *)
Definition headers_update (h : gmap string string) (s : Session) : Session :=
  {| session_headers := h ∪ session_headers s |}.

(** [Session.request]: the session's headers go out with the request (the
    client passes no headers of its own to any call). *)
Definition session_request (s : Session) (m : http_method) (url : string)
    (params body : option (gmap string json)) : M world response :=
  send {| req_method := m; req_url := url; req_headers := session_headers s;
          req_params := params; req_json := body |}.

(** Module-level [requests.get(url)]: a throw-away session. *)
Definition requests_get (url : string) : M world response :=
  session_request new_session GET url None None.

Definition is_failure (status : Z) : bool :=
  (400 <=? status) && (status <? 600).

(** [Response.raise_for_status()]. *)
Definition raise_for_status {S} (r : response) : M S unit :=
  if is_failure (status_code r) then raise (HTTPError (status_code r)) else ret tt.

(** [Response.json()]. *)
Definition response_json {S} (r : response) : M S json :=
  match decoded r with
  | Some v => ret v
  | None => raise JSONDecodeError
  end.

(** ** class TeamCacheClient *)

Module TeamCacheClient.

Record self := {
  api_url : string;
  api_key : string;
  session : Session
}.

Definition default_api_url : string := "http://localhost:8095".
Definition default_api_key : string := "demo-api-key-2024".

Definition __init__ (url key : string) : self :=
  {| api_url := rstrip_slash url;
     api_key := key;
     session :=
       headers_update
         (<["X-API-Key" := key]> (<["Content-Type" := "application/json"]> ∅))
         new_session |}.

Definition health_check (c : self) : M world json :=
  response <- session_request (session c) GET (api_url c +:+ "/api/v1/health") None None ;;
  raise_for_status response ;;
  response_json response.

Definition create_cache_job (c : self) (files directories : option (list string))
    (recursive : bool) : M world json :=
  if negb (given files) && negb (given directories)
  then raise (ValueError "Must provide either files or directories")
  else
    let data : gmap string json := <["recursive" := JBool recursive]> ∅ in
    let data := if given files then <["files" := str_list (default [] files)]> data else data in
    let data :=
      if given directories
      then <["directories" := str_list (default [] directories)]> data else data in
    response <- session_request (session c) POST (api_url c +:+ "/api/v1/cache/jobs")
                  None (Some data) ;;
    raise_for_status response ;;
    response_json response.

Definition get_job_status (c : self) (job_id : string) : M world json :=
  response <- session_request (session c) GET
                (api_url c +:+ "/api/v1/cache/jobs/" +:+ job_id) None None ;;
  raise_for_status response ;;
  response_json response.

Definition list_jobs (c : self) (page limit : Z) (status : option string) : M world json :=
  let params : gmap string json := <["limit" := JInt limit]> (<["page" := JInt page]> ∅) in
  let params :=
    if given_str status then <["status" := JStr (default "" status)]> params else params in
  response <- session_request (session c) GET (api_url c +:+ "/api/v1/cache/jobs")
                (Some params) None ;;
  raise_for_status response ;;
  response_json response.

Definition cancel_job (c : self) (job_id : string) : M world json :=
  response <- session_request (session c) DELETE
                (api_url c +:+ "/api/v1/cache/jobs/" +:+ job_id) None None ;;
  raise_for_status response ;;
  response_json response.

Definition get_metrics (c : self) : M world json :=
  response <- requests_get (api_url c +:+ "/api/v1/metrics") ;;
  raise_for_status response ;;
  response_json response.

Definition get_s3_metrics (c : self) : M world json :=
  response <- requests_get (api_url c +:+ "/api/v1/metrics/s3") ;;
  raise_for_status response ;;
  response_json response.

(** A progress callback gets the job dictionary itself; it raises, or returns
    with the dictionary as it left it. *)
Definition callback := json -> exn + json.

Definition call {S} (cb : callback) (job : json) : M S json :=
  match cb job with
  | inl e => raise e
  | inr job' => ret job'
  end.

Definition carriage_return : string := String (ascii_of_nat 13) EmptyString.

(** The default progress line of [monitor_job]. *)
Definition display_progress (job : json) : M world unit :=
  progress <- getitem job "progress" ;;
  size <- getitem progress "size" ;;
  done_ <- getitem size "completedReadable" ;;
  size <- getitem progress "size" ;;
  total <- getitem size "totalReadable" ;;
  size <- getitem progress "size" ;;
  pct <- getitem size "percentage" ;;
  print [Lit (carriage_return +:+ "Progress: "); Val done_; Lit " / "; Val total;
         Lit " ("; Val pct; Lit "%)"].

Definition terminal_statuses : list string := ["completed"; "failed"; "cancelled"].

(** [v in ["completed", "failed", "cancelled"]]: only a string can be equal
    to one of them. *)
Definition is_terminal (v : json) : bool :=
  match v with
  | JStr s => bool_decide (s ∈ terminal_statuses)
  | _ => false
  end.

(** The [while True] loop of [monitor_job], [fuel] iterations of it. *)
Fixpoint monitor_loop (fuel : nat) (c : self) (job_id : string) (interval : Z)
    (cb : option callback) : M world json :=
  match fuel with
  | O => fun w => (Pending, w)
  | S fuel' =>
      status <- get_job_status c job_id ;;
      job <- getitem status "job" ;;
      job <- match cb with
             | Some f => call f job
             | None => display_progress job ;; ret job
             end ;;
      st <- getitem job "status" ;;
      if is_terminal st
      then print [] ;; ret job
      else sleep interval ;; monitor_loop fuel' c job_id interval cb
  end.

(** Every iteration takes one reply, so one more iteration than there are
    scripted replies is the whole run of the loop. *)
Definition monitor_job (c : self) (job_id : string) (interval : Z)
    (cb : option callback) : M world json :=
  fun w => monitor_loop (S (length (script w))) c job_id interval cb w.

Section Batch.

(** [str(v)] of a value that is not a string, as f-strings apply it. *)
Variable py_repr : json -> string.

Definition py_str (v : json) : string :=
  match v with
  | JStr s => s
  | _ => py_repr v
  end.

(** The local variable [job_ids] lives beside the world. *)
Definition in_world {L A} (c : M world A) : M (world * L) A :=
  fun '(w, l) => let '(r, w') := c w in (r, (w', l)).

Definition append {A} (v : A) : M (world * list A) unit :=
  fun '(w, l) => (Return tt, (w, l ++ [v])).

(** One turn of the [for] loop: the [try] block and its handler. *)
Definition submit (c : self) (monitor : bool) (directory : string)
    : M (world * list json) unit :=
  try_except
    (in_world (print [Lit "Submitting job for: "; Val (JStr directory)]) ;;
     result <- in_world (create_cache_job c None (Some [directory]) true) ;;
     job_id <- getitem result "jobId" ;;
     append job_id ;;
     in_world (print [Lit "  Created job: "; Val job_id]) ;;
     total_files <- getitem result "totalFiles" ;;
     in_world (print [Lit "  Files: "; Val total_files]) ;;
     total_size <- getitem result "totalSize" ;;
     readable <- getitem total_size "readable" ;;
     in_world (print [Lit "  Size: "; Val readable]) ;;
     if monitor
     then
       in_world (print [Lit "  Monitoring progress..."]) ;;
       final_status <- in_world (monitor_job c (py_str job_id) 5 None) ;;
       st <- getitem final_status "status" ;;
       in_world (print [Lit "  Final status: "; Val st])
     else ret tt)
    (fun e => in_world (print [Lit "  Error: "; Exc e])).

Fixpoint submit_all (c : self) (monitor : bool) (directories : list string)
    : M (world * list json) unit :=
  match directories with
  | [] => ret tt
  | directory :: rest => submit c monitor directory ;; submit_all c monitor rest
  end.

Definition batch_cache_directories (c : self) (directories : list string)
    (monitor : bool) : M world (list json) :=
  fun w =>
    match submit_all c monitor directories (w, []) with
    | (Return _, (w', job_ids)) => (Return job_ids, w')
    | (Raise e, (w', _)) => (Raise e, w')
    | (Pending, (w', _)) => (Pending, w')
    end.

End Batch.

End TeamCacheClient.

(** ** class MetricsMonitor *)

Module MetricsMonitor.

(** The monitor object ([ws_url], the [metrics] dictionary) together with the
    console it prints to. *)
Record self := {
  ws_url : string;
  metrics : gmap string json;
  console : list (list fragment)
}.

Definition default_ws_url : string := "ws://localhost:8095/ws".

Definition __init__ (url : string) : self :=
  {| ws_url := url;
     metrics := <["lucidLink" := JNull]> (<["s3Health" := JNull]> ∅);
     console := [] |}.

(** [self.metrics[k] = v]. *)
Definition set_metric (k : string) (v : json) : M self unit :=
  fun s =>
    (Return tt,
     {| ws_url := ws_url s; metrics := <[k := v]> (metrics s); console := console s |}).

(** [self.metrics[k]]. *)
Definition get_metric (k : string) : M self json :=
  fun s =>
    match metrics s !! k with
    | Some v => (Return v, s)
    | None => (Raise (KeyError k), s)
    end.

Definition print (line : list fragment) : M self unit :=
  fun s =>
    (Return tt,
     {| ws_url := ws_url s; metrics := metrics s; console := console s ++ [line] |}).

Definition rule : string := "--------------------------------------------------".

Definition _display_metrics (title : string) : M self unit :=
  print [Lit (String (ascii_of_nat 10) EmptyString); Lit title] ;;
  print [Lit rule] ;;
  ll <- get_metric "lucidLink" ;;
  (if truthy ll
   then
     ll <- get_metric "lucidLink" ;;
     mbps <- dict_get ll "throughputMbps" (JInt 0) ;;
     shown <- fixed2 mbps ;;
     print [Lit "LucidLink Throughput: "; shown; Lit " MB/s"]
   else ret tt) ;;
  s3 <- get_metric "s3Health" ;;
  (if truthy s3
   then
     s3 <- get_metric "s3Health" ;;
     healthy <- dict_get s3 "isHealthy" JNull ;;
     let status := if truthy healthy then "Healthy" else "Unhealthy" in
     print [Lit "S3 Status: "; Lit status] ;;
     latency <- dict_get s3 "latency" (JStr "N/A") ;;
     print [Lit "S3 Latency: "; Val latency; Lit "ms"] ;;
     average <- dict_get s3 "averageLatency" (JStr "N/A") ;;
     print [Lit "S3 Avg Latency: "; Val average; Lit "ms"]
   else ret tt) ;;
  print [Lit rule].

(** [v == s] for a string literal [s]. *)
Definition eq_str (v : json) (s : string) : bool :=
  match v with
  | JStr s' => String.eqb s' s
  | _ => false
  end.

(** The dispatch on the decoded message (the [if]/[elif] chain); each test
    calls [data.get("type")] anew. *)
Definition dispatch (data : json) : M self unit :=
  ty <- dict_get data "type" JNull ;;
  if eq_str ty "metrics" then
    ll <- dict_get data "lucidLink" JNull ;;
    set_metric "lucidLink" ll ;;
    s3 <- dict_get data "s3Health" JNull ;;
    set_metric "s3Health" s3 ;;
    _display_metrics "Initial metrics received"
  else
    ty <- dict_get data "type" JNull ;;
    if eq_str ty "lucidlink-stats" then
      ll <- dict_get data "lucidLink" JNull ;;
      set_metric "lucidLink" ll ;;
      ll <- getitem data "lucidLink" ;;
      throughput <- getitem ll "throughputMbps" ;;
      shown <- fixed2 throughput ;;
      print [Lit "LucidLink: "; shown; Lit " MB/s"]
    else
      ty <- dict_get data "type" JNull ;;
      if eq_str ty "s3-health" then
        s3 <- dict_get data "s3Health" JNull ;;
        set_metric "s3Health" s3 ;;
        health <- getitem data "s3Health" ;;
        healthy <- getitem health "isHealthy" ;;
        let status := if truthy healthy then "✅" else "❌" in
        latency <- getitem health "latency" ;;
        average <- getitem health "averageLatency" ;;
        print [Lit "S3 Health: "; Lit status; Lit " Latency: "; Val latency;
               Lit "ms (avg: "; Val average; Lit "ms)"]
      else ret tt.

(** What one [wait_for(websocket.recv(), timeout=1.0)] yields: a text frame
    (given by what [json.loads] makes of it, [None] when it is not JSON),
    nothing within the second, or a failure of the connection. *)
Inductive received :=
| Message (decoded : option json)
| Silence
| Broken (e : exn).

Definition wait_for_recv (r : received) : M self (option json) :=
  match r with
  | Message m => ret m
  | Silence => raise TimeoutError
  | Broken e => raise e
  end.

Definition json_loads (m : option json) : M self json :=
  match m with
  | Some data => ret data
  | None => raise JSONDecodeError
  end.

(** The [try] block of one iteration with its two handlers. *)
Definition receive (r : received) : M self unit :=
  try_except
    (message <- wait_for_recv r ;;
     data <- json_loads message ;;
     dispatch data)
    (fun e =>
       match e with
       | TimeoutError => ret tt
       | _ => print [Lit "Error: "; Exc e]
       end).

Definition Qgt_bool (a b : Q) : bool := negb (Qle_bool a b).

(** [duration and (now - start_time) > duration].  The difference of the two
    clock readings is taken exactly; Python rounds it to a double, so a
    difference less than a rounding step above [duration] may compare as not
    greater there. *)
Definition expired (duration : option Z) (start_time now : Q) : bool :=
  match duration with
  | None => false
  | Some d => negb (d =? 0) && Qgt_bool (now - start_time) (inject_Z d)
  end.

(** The [while True] loop; each turn reads the clock and, unless it breaks,
    waits for a frame.  [feed] lists what the clock and the socket give, turn
    by turn. *)
Fixpoint monitor_loop (duration : option Z) (start_time : Q)
    (feed : list (Q * received)) : M self unit :=
  match feed with
  | [] => fun s => (Pending, s)
  | (now, r) :: feed' =>
      if expired duration start_time now
      then ret tt
      else receive r ;; monitor_loop duration start_time feed'
  end.

(** [connect_and_monitor]: [start_time] is the clock read on entry,
    [connect] the failure of [websockets.connect], if any. *)
Definition connect_and_monitor (duration : option Z) (start_time : Q)
    (connect : option exn) (feed : list (Q * received)) : M self unit :=
  match connect with
  | Some e => raise e
  | None =>
      (fun s => print [Lit "Connected to metrics WebSocket: "; Lit (ws_url s)] s) ;;
      monitor_loop duration start_time feed
  end.

End MetricsMonitor.


(** ** Module-level functions *)

Section Script.

(** [str(v)] of a value that is not a string. *)
Variable py_repr : json -> string.

(** What iterating a dictionary and a string gives: the keys in insertion
    order (which the decoded map does not record) and the characters. *)
Variable keys_in_order : gmap string json -> list string.
Variable characters : string -> list string.

Definition newline : string := String (ascii_of_nat 10) EmptyString.

(** [f"{v}"]. *)
Definition shown (v : json) : string := TeamCacheClient.py_str py_repr v.

Definition format_job_status {S} (job : json) : M S string :=
  progress <- getitem job "progress" ;;
  id <- getitem job "id" ;;
  status <- getitem job "status" ;;
  files <- getitem progress "files" ;;
  files_completed <- getitem files "completed" ;;
  files <- getitem progress "files" ;;
  files_total <- getitem files "total" ;;
  files <- getitem progress "files" ;;
  files_percentage <- getitem files "percentage" ;;
  size <- getitem progress "size" ;;
  size_completed <- getitem size "completedReadable" ;;
  size <- getitem progress "size" ;;
  size_total <- getitem size "totalReadable" ;;
  size <- getitem progress "size" ;;
  size_percentage <- getitem size "percentage" ;;
  let status_lines :=
    [ "Job ID: " +:+ shown id;
      "Status: " +:+ shown status;
      "Files: " +:+ shown files_completed +:+ "/" +:+ shown files_total
        +:+ " (" +:+ shown files_percentage +:+ "%)";
      "Size: " +:+ shown size_completed +:+ "/" +:+ shown size_total
        +:+ " (" +:+ shown size_percentage +:+ "%)" ] in
  throughput <- dict_get job "throughput" JNull ;;
  status_lines <-
    (if truthy throughput
     then
       throughput <- getitem job "throughput" ;;
       readable <- getitem throughput "readable" ;;
       ret (status_lines ++ ["Speed: " +:+ shown readable])
     else ret status_lines) ;;
  ret (String.concat newline status_lines).

(** [iter(v)], as a [for] loop takes it. *)
Definition py_iter {S} (v : json) : M S (list json) :=
  match v with
  | JArr items => ret items
  | JObj fields => ret (JStr <$> keys_in_order fields)
  | JStr s => ret (JStr <$> characters s)
  | _ => raise TypeError
  end.

Fixpoint for_each {S} (items : list json) (body : json -> M S unit) : M S unit :=
  match items with
  | [] => ret tt
  | item :: rest => body item ;; for_each rest body
  end.

Definition main : M world unit :=
  let client :=
    TeamCacheClient.__init__ TeamCacheClient.default_api_url
      TeamCacheClient.default_api_key in
  print [Lit "Checking API health..."] ;;
  health <- TeamCacheClient.health_check client ;;
  status <- getitem health "status" ;;
  print [Lit "API Status: "; Val status] ;;
  database <- getitem health "database" ;;
  print [Lit "Database: "; Val database] ;;
  print [] ;;
  print [Lit "Current System Metrics:"] ;;
  metrics <- TeamCacheClient.get_metrics client ;;
  success <- getitem metrics "success" ;;
  (if truthy success
   then
     m <- getitem metrics "metrics" ;;
     ll <- getitem m "lucidLink" ;;
     mbps <- getitem ll "throughputMbps" ;;
     mbps <- fixed2 mbps ;;
     print [Lit "  LucidLink: "; mbps; Lit " MB/s"] ;;
     s3 <- getitem m "s3Health" ;;
     latency <- getitem s3 "latency" ;;
     print [Lit "  S3 Latency: "; Val latency; Lit "ms"] ;;
     s3 <- getitem m "s3Health" ;;
     healthy <- getitem s3 "isHealthy" ;;
     print [Lit "  S3 Healthy: "; Val healthy]
   else ret tt) ;;
  print [] ;;
  print [Lit "Creating cache job..."] ;;
  job_result <- TeamCacheClient.create_cache_job client None (Some ["Projects/2024/Q1"]) true ;;
  success <- getitem job_result "success" ;;
  (if truthy success
   then
     job_id <- getitem job_result "jobId" ;;
     print [Lit "Job created: "; Val job_id] ;;
     total_files <- getitem job_result "totalFiles" ;;
     print [Lit "Total files: "; Val total_files] ;;
     total_size <- getitem job_result "totalSize" ;;
     readable <- getitem total_size "readable" ;;
     print [Lit "Total size: "; Val readable] ;;
     print [] ;;
     print [Lit "Monitoring job progress..."] ;;
     final_job <- TeamCacheClient.monitor_job client (shown job_id) 5 None ;;
     final_status <- getitem final_job "status" ;;
     print [Lit (newline +:+ "Job completed with status: "); Val final_status]
   else ret tt) ;;
  print [Lit (newline +:+ "Recent Jobs:")] ;;
  jobs_response <- TeamCacheClient.list_jobs client 1 5 None ;;
  jobs <- getitem jobs_response "jobs" ;;
  jobs <- py_iter jobs ;;
  for_each jobs
    (fun job =>
       id <- getitem job "id" ;;
       status <- getitem job "status" ;;
       completed_files <- getitem job "completed_files" ;;
       total_files <- getitem job "total_files" ;;
       print [Lit "  - "; Val id; Lit ": "; Val status; Lit " ("; Val completed_files;
              Lit "/"; Val total_files; Lit " files)"]).

End Script.

(** [monitor_metrics_example]: a fresh monitor run for thirty seconds. *)
Definition monitor_metrics_example (start_time : Q) (connect : option exn)
    (feed : list (Q * MetricsMonitor.received)) : outcome unit * MetricsMonitor.self :=
  (MetricsMonitor.print [Lit "Starting real-time metrics monitoring for 30 seconds..."] ;;
   MetricsMonitor.connect_and_monitor (Some 30) start_time connect feed ;;
   MetricsMonitor.print [Lit (newline +:+ "Monitoring complete!")])
    (MetricsMonitor.__init__ MetricsMonitor.default_ws_url).
(** ** Vocabulary of the statements *)

Import TeamCacheClient.

(** The events a computation adds to the log of the world it starts in. *)
Definition emitted {A} (c : M world A) (w : world) : list event :=
  drop (length (log w)) (log (c w).2).

Definition request_of (ev : event) : option request :=
  match ev with
  | Http r _ => Some r
  | _ => None
  end.

Definition requests (l : list event) : list request := omap request_of l.

Definition sleep_of (ev : event) : option Z :=
  match ev with
  | Slept n => Some n
  | _ => None
  end.

Definition sleeps (l : list event) : list Z := omap sleep_of l.

(** The REST operations of the client. *)
Inductive operation :=
| HealthCheck
| CreateCacheJob (files directories : option (list string)) (recursive : bool)
| GetJobStatus (job_id : string)
| ListJobs (page limit : Z) (status : option string)
| CancelJob (job_id : string)
| GetMetrics
| GetS3Metrics.

Definition perform (c : self) (op : operation) : M world json :=
  match op with
  | HealthCheck => health_check c
  | CreateCacheJob files directories recursive =>
      create_cache_job c files directories recursive
  | GetJobStatus job_id => get_job_status c job_id
  | ListJobs page limit status => list_jobs c page limit status
  | CancelJob job_id => cancel_job c job_id
  | GetMetrics => get_metrics c
  | GetS3Metrics => get_s3_metrics c
  end.

(** The operations that go through [self.session]. *)
Definition through_session (op : operation) : bool :=
  match op with
  | GetMetrics | GetS3Metrics => false
  | _ => true
  end.

(** The operations that reach the network at all. *)
Definition reaches_network (op : operation) : bool :=
  match op with
  | CreateCacheJob files directories _ => given files || given directories
  | _ => true
  end.

Definition carries_key (key : string) (l : list event) : Prop :=
  Forall (λ req, req_headers req !! "X-API-Key" = Some key) (requests l).

(** C1 as the specification words it, at one client, operation and script. *)
Definition every_request_authenticated (url key : string) (op : operation)
    (replies : list reply) : Prop :=
  carries_key key (emitted (perform (__init__ url key) op) {| script := replies; log := [] |}).

(** C6 as the specification words it: the [status] parameter is there exactly
    when a status is passed. *)
Definition status_sent_iff_provided (c : self) (page limit : Z) (status : option string)
    (w : world) : Prop :=
  Forall
    (λ req, ∃ params, req_params req = Some params ∧
       (is_Some (params !! "status") ↔ is_Some status))
    (requests (emitted (list_jobs c page limit status) w)).

(** What a reply makes of a plain request/raise_for_status/json sequence. *)
Definition reply_outcome (a : reply) : outcome json :=
  match a with
  | Answer resp =>
      if is_failure (status_code resp) then Raise (HTTPError (status_code resp))
      else match decoded resp with
           | Some v => Return v
           | None => Raise JSONDecodeError
           end
  | Refuse kind => Raise (RequestException kind)
  end.

(** The request each operation builds, when it builds one. *)
Definition request_for (c : self) (op : operation) : request :=
  let plain m h path :=
    {| req_method := m; req_url := api_url c +:+ path; req_headers := h;
       req_params := None; req_json := None |} in
  match op with
  | HealthCheck => plain GET (session_headers (session c)) "/api/v1/health"
  | CreateCacheJob files directories recursive =>
      {| req_method := POST; req_url := api_url c +:+ "/api/v1/cache/jobs";
         req_headers := session_headers (session c);
         req_params := None;
         req_json :=
           Some ((if given directories
                  then <["directories" := str_list (default [] directories)]>
                  else id)
                   ((if given files then <["files" := str_list (default [] files)]> else id)
                      (<["recursive" := JBool recursive]> ∅))) |}
  | GetJobStatus job_id =>
      plain GET (session_headers (session c)) ("/api/v1/cache/jobs/" +:+ job_id)
  | ListJobs page limit status =>
      {| req_method := GET; req_url := api_url c +:+ "/api/v1/cache/jobs";
         req_headers := session_headers (session c);
         req_params :=
           Some ((if given_str status then <["status" := JStr (default "" status)]> else id)
                   (<["limit" := JInt limit]> (<["page" := JInt page]> ∅)));
         req_json := None |}
  | CancelJob job_id =>
      plain DELETE (session_headers (session c)) ("/api/v1/cache/jobs/" +:+ job_id)
  | GetMetrics => plain GET default_headers "/api/v1/metrics"
  | GetS3Metrics => plain GET default_headers "/api/v1/metrics/s3"
  end.

Definition validation_error : exn := ValueError "Must provide either files or directories".




Module MM := MetricsMonitor.

(** [data.get(k)] on the fields of a decoded message. *)
Definition field (fields : gmap string json) (k : string) : json :=
  default JNull (fields !! k).

(** A computation of the monitor that always comes back (it never waits for
    the environment) and moves the monitor along [R]. *)
Definition respects {A} (R : MM.self → MM.self → Prop) (c : M MM.self A) : Prop :=
  ∀ s, (c s).1 ≠ Pending ∧ R s (c s).2.

Definition same_metrics (s s' : MM.self) : Prop := MM.metrics s' = MM.metrics s.

Definition any_change (s s' : MM.self) : Prop := True.

(** C8 as the specification words it: the loop is left only when a positive
    duration has elapsed. *)
Definition exits_only_after_positive_duration (duration : option Z) (start_time : Q)
    (feed : list (Q * MM.received)) (s : MM.self) : Prop :=
  (MM.connect_and_monitor duration start_time None feed s).1 = Return tt →
  ∃ n now r, duration = Some n ∧ 0 < n ∧ (now, r) ∈ feed
             ∧ (inject_Z n < now - start_time)%Q.

(** C9 as the specification words it: the elapsed-time exit needs a positive
    [duration]. *)
Definition exits_only_with_positive_duration (duration : option Z) (start_time : Q)
    (feed : list (Q * MM.received)) (s : MM.self) : Prop :=
  (MM.connect_and_monitor duration start_time None feed s).1 = Return tt →
  ∃ n, duration = Some n ∧ 0 < n.

(** [job["status"]], when the job is a dictionary that has one. *)
Definition status_of (job : json) : option json :=
  match job with
  | JObj fields => fields !! "status"
  | _ => None
  end.

(** A job whose status is one of the terminal ones. *)
Definition finished (job : json) : bool :=
  match status_of job with
  | Some st => is_terminal st
  | None => false
  end.

(** A job that has a status, and not a terminal one. *)
Definition in_progress (job : json) : bool :=
  match status_of job with
  | Some st => negb (is_terminal st)
  | None => false
  end.

(** The job carries what the default progress line reads. *)
Definition has_progress (job : json) : bool :=
  match job with
  | JObj fields =>
      match fields !! "progress" with
      | Some (JObj progress) =>
          match progress !! "size" with
          | Some (JObj size) =>
              match size !! "completedReadable", size !! "totalReadable",
                    size !! "percentage" with
              | Some _, Some _, Some _ => true
              | _, _, _ => false
              end
          | _ => false
          end
      | _ => false
      end
  | _ => false
  end.

(** Reporting the job goes through and leaves the job as it is: the callback
    returns without touching it, or the default line finds its fields. *)
Definition observed (cb : option callback) (job : json) : Prop :=
  match cb with
  | Some f => f job = inr job
  | None => has_progress job = true
  end.

(** A reply to a status poll that delivers [job]. *)
Definition delivers (a : reply) (job : json) : Prop :=
  ∃ fields, reply_outcome a = Return (JObj fields) ∧ fields !! "job" = Some job.

Definition poll_request (c : self) (job_id : string) : request :=
  request_for c (GetJobStatus job_id).


(** Sample data: a job dictionary as the service sends it, and the reply to a
    status poll that carries it. *)
Definition sample_job (status : string) : json :=
  JObj (<["id" := JStr "job-1"]>
         (<["status" := JStr status]>
           (<["progress" :=
                JObj (<["size" :=
                          JObj (<["completedReadable" := JStr "1 GB"]>
                                 (<["totalReadable" := JStr "2 GB"]>
                                   (<["percentage" := JInt 50]> ∅)))]> ∅)]> ∅))).

Definition sample_poll (status : string) : reply :=
  Answer {| status_code := 200;
            decoded := Some (JObj (<["success" := JBool true]>
                                    (<["job" := sample_job status]> ∅))) |}.

Definition sample_client : self := __init__ default_api_url default_api_key.

Definition sample_created (job_id : string) : reply :=
  Answer {| status_code := 201;
            decoded :=
              Some (JObj (<["success" := JBool true]>
                           (<["jobId" := JStr job_id]>
                             (<["totalFiles" := JInt 3]>
                               (<["totalSize" :=
                                    JObj (<["readable" := JStr "2 GB"]> ∅)]> ∅))))) |}.

Definition sample_outage : reply := Answer {| status_code := 503; decoded := None |}.


(** A finished job as a terse service might send it: no [progress]. *)
Definition sample_bare_job : json :=
  JObj (<["id" := JStr "job-1"]> (<["status" := JStr "completed"]> ∅)).

Definition sample_bare_poll : reply :=
  Answer {| status_code := 200;
            decoded := Some (JObj (<["job" := sample_bare_job]> ∅)) |}.

(** A success reply that carries no job. *)
Definition sample_no_job : reply :=
  Answer {| status_code := 200;
            decoded := Some (JObj (<["success" := JBool false]> ∅)) |}.

(** A job with everything the status report reads, and a transfer rate. *)
Definition sample_full_job : json :=
  JObj (<["id" := JStr "job-7"]>
         (<["status" := JStr "running"]>
           (<["throughput" := JObj (<["readable" := JStr "120 MB/s"]> ∅)]>
             (<["progress" :=
                  JObj (<["files" :=
                            JObj (<["completed" := JStr "3"]>
                                   (<["total" := JStr "10"]>
                                     (<["percentage" := JStr "30"]> ∅)))]>
                         (<["size" :=
                              JObj (<["completedReadable" := JStr "1 GB"]>
                                     (<["totalReadable" := JStr "2 GB"]>
                                       (<["percentage" := JStr "50"]> ∅)))]> ∅))]>
               ∅)))).

(** Replies to the calls of the example script. *)
Definition sample_health : reply :=
  Answer {| status_code := 200;
            decoded := Some (JObj (<["status" := JStr "ok"]>
                                    (<["database" := JStr "connected"]> ∅))) |}.

Definition sample_metrics : reply :=
  Answer {| status_code := 200;
            decoded := Some (JObj (<["success" := JBool false]> ∅)) |}.

Definition sample_listing : reply :=
  Answer {| status_code := 200;
            decoded :=
              Some (JObj (<["jobs" :=
                              JArr [JObj (<["id" := JStr "job-2"]>
                                           (<["status" := JStr "completed"]>
                                             (<["completed_files" := JInt 3]>
                                               (<["total_files" := JInt 3]> ∅))))]]>
                           ∅)) |}.

(** A state relation that every run of [c] satisfies between its start and
    its end. *)
Definition moves {S A} (R : S → S → Prop) (c : M S A) : Prop :=
  ∀ s, R s (c s).2.

Definition is_post (ev : event) : bool :=
  match ev with
  | Http r _ => match req_method r with POST => true | _ => false end
  | _ => false
  end.

(** The [directories] a job-creation request submits. *)
Definition submitted (ev : event) : option json :=
  match ev with
  | Http r _ =>
      match req_method r with
      | POST => req_json r ≫= (λ data, data !! "directories")
      | _ => None
      end
  | _ => None
  end.

(** The job id a job-creation exchange yields: the reply is a success, its
    body a JSON object, and [jobId] is in it. *)
Definition created (ev : event) : option json :=
  match ev with
  | Http r (Some a) =>
      match req_method r, reply_outcome a with
      | POST, Return (JObj fields) => fields !! "jobId"
      | _, _ => None
      end
  | _ => None
  end.

(** The world moved on without any job-creation request. *)
Definition grows (w w' : world) : Prop :=
  ∃ out, log w' = log w ++ out
         ∧ Forall (λ ev, is_post ev = false) out
         ∧ (length (script w') ≤ length (script w))%nat.

Definition grows_beside {L} (s s' : world * L) : Prop :=
  s'.2 = s.2 ∧ grows s.1 s'.1.

(** What [submit] does once the job id is in [job_ids]. *)
Definition after_created (py_repr : json → string) (c : self) (monitor : bool)
    (result job_id : json) : M (world * list json) unit :=
  in_world (print [Lit "  Created job: "; Val job_id]) ;;
  total_files <- getitem result "totalFiles" ;;
  in_world (print [Lit "  Files: "; Val total_files]) ;;
  total_size <- getitem result "totalSize" ;;
  readable <- getitem total_size "readable" ;;
  in_world (print [Lit "  Size: "; Val readable]) ;;
  if monitor
  then
    in_world (print [Lit "  Monitoring progress..."]) ;;
    final_status <- in_world (monitor_job c (py_str py_repr job_id) 5 None) ;;
    st <- getitem final_status "status" ;;
    in_world (print [Lit "  Final status: "; Val st])
  else ret tt.

Definition creation_request (c : self) (directory : string) : request :=
  request_for c (CreateCacheJob None (Some [directory]) true).

(** What one turn of the batch loop, started in world [w] with [job_ids = l],
    may end in. *)
Definition submit_result (monitor : bool) (directory : string) (w : world) (l : list json)
    (res : outcome unit * (world * list json)) : Prop :=
  ∃ out,
    log res.2.1 = log w ++ out
    ∧ res.2.2 = l ++ omap created out
    ∧ (∀ e, res.1 ≠ Raise e)
    ∧ omap submitted out = [str_list [directory]]
    ∧ (length (omap created out) ≤ 1)%nat
    ∧ (length (script res.2.1) ≤ length (script w))%nat
    ∧ (monitor = false → script w ≠ [] →
       res.1 = Return tt ∧ script res.2.1 = tail (script w)).




(** Poll replies on which the monitoring of a job breaks off: any number that
    show it in progress, then a poll that fails. *)
Definition lost (polls : list reply) : Prop :=
  ∃ replies jobs a e,
    polls = replies ++ [a]
    ∧ Forall2 delivers replies jobs
    ∧ Forall (λ j, in_progress j = true ∧ observed None j) jobs
    ∧ reply_outcome a = Raise e.



(** *** Further vocabulary: URLs, event kinds, job shapes *)

Fixpoint slashes (n : nat) : string :=
  match n with
  | O => EmptyString
  | S n' => String "/"%char (slashes n')
  end.

Fixpoint ends_with_slash (s : string) : bool :=
  match s with
  | EmptyString => false
  | String c EmptyString => Ascii.eqb c "/"%char
  | String _ s' => ends_with_slash s'
  end.

(** The world moved on by events of kind [φ] only. *)
Definition grows_by (φ : event → Prop) (w w' : world) : Prop :=
  ∃ out, log w' = log w ++ out ∧ Forall φ out.

Definition grows_by_beside {L} (φ : event → Prop) (s s' : world * L) : Prop :=
  grows_by φ s.1 s'.1.

(** Console lines only, and no reply taken. *)
Definition is_printed (ev : event) : Prop :=
  match ev with
  | Printed _ => True
  | _ => False
  end.

Definition prints_only (w w' : world) : Prop :=
  script w' = script w ∧ grows_by is_printed w w'.

(** The events of polling job [job_id] every [interval] seconds. *)
Definition polling_event (c : self) (job_id : string) (interval : Z) (ev : event) : Prop :=
  match ev with
  | Http r _ => r = poll_request c job_id
  | Printed _ => True
  | Slept n => n = interval
  end.

(** The events of an unmonitored submission of [directory]. *)
Definition submission_event (c : self) (directory : string) (ev : event) : Prop :=
  match ev with
  | Http r _ => r = creation_request c directory
  | Printed _ => True
  | Slept _ => False
  end.

(** A computation that always comes back and moves its state along [R]. *)
Definition settles_in {S A} (R : S → S → Prop) (c : M S A) : Prop :=
  ∀ s, (c s).1 ≠ Pending ∧ R s (c s).2.

(** [monitor_job] ends with [r] at its [polls]-th poll: it has slept between
    the polls only, and the replies [after] that poll are left. *)
Definition monitoring_ends (c : self) (job_id : string) (interval : Z)
    (cb : option callback) (w : world) (polls : nat) (after : list reply)
    (r : outcome json) : Prop :=
  (monitor_job c job_id interval cb w).1 = r
  ∧ script (monitor_job c job_id interval cb w).2 = after
  ∧ requests (emitted (monitor_job c job_id interval cb) w)
    = replicate polls (poll_request c job_id)
  ∧ sleeps (emitted (monitor_job c job_id interval cb) w)
    = replicate (pred polls) interval.

(** The events of a batch over [directories] in which the jobs [ids] were
    created: creation requests for the directories, polls of created jobs,
    five-second sleeps, console lines. *)
Definition batch_event (py_repr : json → string) (c : self) (directories : list string)
    (ids : list json) (ev : event) : Prop :=
  match ev with
  | Http r _ =>
      (∃ d, d ∈ directories ∧ r = creation_request c d)
      ∨ (∃ j, j ∈ ids ∧ r = poll_request c (py_str py_repr j))
  | Printed _ => True
  | Slept n => n = 5
  end.

(** [k in v] for a dictionary [v] (false for anything else), and the value
    under [k] where there is one. *)
Definition has_key (v : json) (k : string) : bool :=
  match v with
  | JObj fields => match fields !! k with Some _ => true | None => false end
  | _ => false
  end.

Definition item (v : json) (k : string) : json :=
  match v with
  | JObj fields => default JNull (fields !! k)
  | _ => JNull
  end.

(** A job dictionary that has everything [format_job_status] reads. *)
Definition printable_job (job : json) : bool :=
  has_key job "progress" && has_key job "id" && has_key job "status"
  && has_key (item job "progress") "files"
  && has_key (item (item job "progress") "files") "completed"
  && has_key (item (item job "progress") "files") "total"
  && has_key (item (item job "progress") "files") "percentage"
  && has_key (item job "progress") "size"
  && has_key (item (item job "progress") "size") "completedReadable"
  && has_key (item (item job "progress") "size") "totalReadable"
  && has_key (item (item job "progress") "size") "percentage"
  && (negb (truthy (item job "throughput"))
      || has_key (item job "throughput") "readable").

(** The lines of the status report of a printable job. *)
Definition job_lines (py_repr : json → string) (job : json) : list string :=
  let files := item (item job "progress") "files" in
  let size := item (item job "progress") "size" in
  [ "Job ID: " +:+ shown py_repr (item job "id");
    "Status: " +:+ shown py_repr (item job "status");
    "Files: " +:+ shown py_repr (item files "completed") +:+ "/"
      +:+ shown py_repr (item files "total")
      +:+ " (" +:+ shown py_repr (item files "percentage") +:+ "%)";
    "Size: " +:+ shown py_repr (item size "completedReadable") +:+ "/"
      +:+ shown py_repr (item size "totalReadable")
      +:+ " (" +:+ shown py_repr (item size "percentage") +:+ "%)" ]
  ++ (if truthy (item job "throughput")
      then ["Speed: " +:+ shown py_repr (item (item job "throughput") "readable")]
      else []).

(** The two keys of the monitor's [metrics] dictionary. *)
Definition metric_keys : gset string := {["lucidLink"; "s3Health"]}.

(** What the monitor never loses: its URL, what it printed, and the keys of
    its [metrics]; the only keys it may gain are the two above. *)
Definition kept (s s' : MM.self) : Prop :=
  MM.ws_url s' = MM.ws_url s
  ∧ MM.console s `prefix_of` MM.console s'
  ∧ dom (MM.metrics s) ⊆ dom (MM.metrics s')
  ∧ dom (MM.metrics s') ⊆ dom (MM.metrics s) ∪ metric_keys.

(** The line the loop prints for an exception of a turn. *)
Definition error_line (e : exn) : list fragment := [Lit "Error: "; Exc e].

(** The events of the example script: its four calls, polls of some job,
    five-second sleeps, console lines. *)
Definition main_event (ev : event) : Prop :=
  match ev with
  | Http r _ =>
      r = request_for sample_client HealthCheck
      ∨ r = request_for sample_client GetMetrics
      ∨ r = creation_request sample_client "Projects/2024/Q1"
      ∨ r = request_for sample_client (ListJobs 1 5 None)
      ∨ ∃ job_id, r = poll_request sample_client job_id
  | Printed _ => True
  | Slept n => n = 5
  end.

(** An event of polling that puts nothing on the console but an empty
    line. *)
Definition silent_polling_event (c : self) (job_id : string) (interval : Z)
    (ev : event) : Prop :=
  match ev with
  | Http r _ => r = poll_request c job_id
  | Printed line => line = []
  | Slept n => n = interval
  end.

(** The world once the reply [a] to a poll has been taken. *)
Definition after_poll (c : self) (job_id : string) (w : world) (a : reply)
    (after : list reply) : world :=
  {| script := after; log := log w ++ [Http (poll_request c job_id) (Some a)] |}.

(** ** Running the primitives *)

Lemma emitted_app {A} (c : M world A) (w : world) (out : list event) :
  log (c w).2 = log w ++ out → emitted c w = out.
Proof.
  intros H. unfold emitted. rewrite H. apply drop_app_length.
Qed.

Lemma bind_run {S A B} (c : M S A) (k : A → M S B) (s : S) :
  (x <- c ;; k x) s =
  match c s with
  | (Return a, s') => k a s'
  | (Raise e, s') => (Raise e, s')
  | (Pending, s') => (Pending, s')
  end.
Proof. reflexivity. Qed.

(** A request followed by [raise_for_status] and [json()]. *)
Lemma exchange_run (req : request) (w : world) :
  (response <- send req ;; raise_for_status response ;; response_json response) w =
  match script w with
  | [] => (Pending, record (Http req None) w)
  | a :: rest =>
      (reply_outcome a, {| script := rest; log := log w ++ [Http req (Some a)] |})
  end.
Proof.
  unfold bind, send, raise_for_status, response_json, reply_outcome, raise, ret.
  destruct (script w) as [|[resp|kind] rest]; try reflexivity.
  destruct (is_failure (status_code resp)); [reflexivity|].
  destruct (decoded resp); reflexivity.
Qed.

(** Every operation either refuses its arguments or is one exchange of the
    request it builds. *)
Lemma perform_run (c : self) (op : operation) (w : world) :
  perform c op w =
  if reaches_network op
  then match script w with
       | [] => (Pending, record (Http (request_for c op) None) w)
       | a :: rest =>
           (reply_outcome a,
            {| script := rest; log := log w ++ [Http (request_for c op) (Some a)] |})
       end
  else (Raise validation_error, w).
Proof.
  destruct op; simpl; try apply exchange_run.
  - unfold create_cache_job.
    destruct (given files), (given directories); simpl; try apply exchange_run.
    reflexivity.
  - unfold list_jobs. destruct (given_str status); apply exchange_run.
Qed.

Lemma perform_emitted (c : self) (op : operation) (w : world) :
  emitted (perform c op) w =
  if reaches_network op
  then [Http (request_for c op) (head (script w))]
  else [].
Proof.
  apply emitted_app. rewrite perform_run.
  destruct (reaches_network op); simpl.
  - destruct (script w); reflexivity.
  - by rewrite app_nil_r.
Qed.

Lemma getitem_inv {S} (v : json) (k : string) (s : S) :
  (∃ fields x, v = JObj fields ∧ fields !! k = Some x ∧ getitem v k s = (Return x, s))
  ∨ (∃ e, getitem v k s = (Raise e, s) ∧ ∀ fields, v = JObj fields → fields !! k = None).
Proof.
  destruct v as [| | | | | |fields]; try (right; eexists; split; [reflexivity | done]).
  destruct (fields !! k) as [x|] eqn:Hk.
  - left. exists fields, x. unfold getitem. by rewrite Hk.
  - right. eexists. unfold getitem. rewrite Hk. split; [reflexivity|]. by intros ? [= <-].
Qed.


(** ** The REST operations *)

Lemma is_failure_spec (status : Z) : is_failure status = true ↔ 400 ≤ status < 600.
Proof. unfold is_failure. rewrite andb_true_iff, Z.leb_le, Z.ltb_lt. done. Qed.

Lemma session_key (url key : string) :
  session_headers (session (__init__ url key)) !! "X-API-Key" = Some key.
Proof.
  simpl. apply lookup_union_Some_l. by rewrite lookup_insert_eq.
Qed.

Lemma default_headers_no_key : default_headers !! "X-API-Key" = None.
Proof. unfold default_headers. by simplify_map_eq. Qed.

Lemma request_for_headers (c : self) (op : operation) :
  req_headers (request_for c op) =
  if through_session op then session_headers (session c) else default_headers.
Proof. by destruct op. Qed.

(** C1, as stated, fails: the request of [get_metrics] is made with the
    module-level [requests.get], outside the session, and has no [X-API-Key]
    header. *)
Lemma get_metrics_request_lacks_api_key :
  ¬ every_request_authenticated default_api_url default_api_key GetMetrics [].
Proof.
  unfold every_request_authenticated, carries_key.
  rewrite perform_emitted. simpl. intros H.
  apply Forall_cons in H as [H _]. simpl in H.
  by rewrite default_headers_no_key in H.
Qed.

(** C1 (amended): every request of the operations that go through the session
    (health_check, create_cache_job, get_job_status, list_jobs, cancel_job)
    carries [X-API-Key] set to the key given at construction, for every key;
    the requests of get_metrics and get_s3_metrics carry no [X-API-Key]. *)
Theorem api_key_header_on_session_requests (url key : string) (op : operation) (w : world) :
  Forall
    (λ req, req_headers req !! "X-API-Key" = if through_session op then Some key else None)
    (requests (emitted (perform (__init__ url key) op) w)).
Proof.
  rewrite perform_emitted. destruct (reaches_network op); [|constructor].
  repeat constructor. simpl. rewrite request_for_headers.
  destruct (through_session op).
  - apply session_key.
  - apply default_headers_no_key.
Qed.





(** C4: whatever the operation, when the request is answered with a status in
    400..599 the call raises (it returns nothing), and when it is answered
    with any other status it returns the decoded JSON body. *)
Theorem status_decides_outcome (c : self) (op : operation) (w : world)
    (resp : response) (rest : list reply) :
  script w = Answer resp :: rest →
  reaches_network op = true →
  (400 ≤ status_code resp < 600 →
   (perform c op w).1 = Raise (HTTPError (status_code resp)))
  ∧ (¬ 400 ≤ status_code resp < 600 →
     ∀ v, decoded resp = Some v → (perform c op w).1 = Return v).
Proof.
  intros Hscript Hnet. rewrite perform_run, Hnet, Hscript. simpl.
  rewrite <- is_failure_spec.
  destruct (is_failure (status_code resp)); split; try done.
  intros _ v ->. reflexivity.
Qed.

Lemma status_decides_outcome_witness :
  let c := __init__ default_api_url default_api_key in
  let down := {| status_code := 503; decoded := None |} in
  let up := {| status_code := 200; decoded := Some (JObj {["status" := JStr "ok"]}) |} in
  (perform c (CancelJob "42") {| script := [Answer down]; log := [] |}).1
    = Raise (HTTPError 503)
  ∧ (perform c HealthCheck {| script := [Answer up]; log := [] |}).1
    = Return (JObj {["status" := JStr "ok"]}).
Proof.
  intros c down up. split.
  - apply (status_decides_outcome c (CancelJob "42") {| script := [Answer down]; log := [] |}
             down []); [reflexivity | reflexivity | simpl; lia].
  - apply (status_decides_outcome c HealthCheck {| script := [Answer up]; log := [] |}
             up []); [reflexivity | reflexivity | simpl; lia | reflexivity].
Defined.

(** C6, as stated, fails: [list_jobs(status="")] is passed a status, yet the
    test [if status:] is false for the empty string and no [status] parameter
    is sent. *)
Lemma empty_status_is_not_sent :
  ¬ status_sent_iff_provided (__init__ default_api_url default_api_key) 1 10 (Some "")
      {| script := []; log := [] |}.
Proof.
  unfold status_sent_iff_provided.
  change (list_jobs ?c ?p ?l ?s) with (perform c (ListJobs p l s)).
  rewrite perform_emitted. simpl. intros H.
  apply Forall_cons in H as [(params & Hp & Hiff) _]. simpl in Hp.
  injection Hp as <-.
  destruct Hiff as [_ Hiff]. destruct Hiff as [v Hv]; [by eexists|].
  by simplify_map_eq.
Qed.

(** C6 (amended): [list_jobs] sends one GET request whose parameters always
    hold page and limit with the given values, and hold the status filter
    exactly when a non-empty status is given; for an absent or empty status
    the [status] key is absent. *)
Theorem list_jobs_parameters (c : self) (page limit : Z) (status : option string) (w : world) :
  ∃ req a params,
    emitted (list_jobs c page limit status) w = [Http req a]
    ∧ req_method req = GET
    ∧ req_params req = Some params
    ∧ params !! "page" = Some (JInt page)
    ∧ params !! "limit" = Some (JInt limit)
    ∧ params !! "status" = (if given_str status then JStr <$> status else None).
Proof.
  pose proof (perform_emitted c (ListJobs page limit status) w) as E. simpl in E.
  eexists _, _, _. split; [exact E|]. simpl.
  repeat split.
  - destruct (given_str status); by simplify_map_eq.
  - destruct (given_str status); by simplify_map_eq.
  - destruct status as [s|]; simpl; [|by simplify_map_eq].
    destruct (String.eqb s ""); simpl; by simplify_map_eq.
Qed.

(** C10: an empty list counts as an absent argument, so with both arguments
    empty or absent [create_cache_job] raises the validation error without a
    request; and the JSON body of any request it sends has the key [files]
    exactly when files is non-empty, the key [directories] exactly when
    directories is non-empty, and always the key [recursive]. *)
Theorem create_cache_job_body (c : self) (files directories : option (list string))
    (recursive : bool) (w : world) :
  (given files = false → given directories = false →
   create_cache_job c files directories recursive w = (Raise validation_error, w))
  ∧ Forall
      (λ req, ∃ data,
         req_json req = Some data
         ∧ (is_Some (data !! "files") ↔ given files = true)
         ∧ (is_Some (data !! "directories") ↔ given directories = true)
         ∧ data !! "recursive" = Some (JBool recursive))
      (requests (emitted (create_cache_job c files directories recursive) w)).
Proof.
  split.
  - intros Hf Hd. unfold create_cache_job. by rewrite Hf, Hd.
  - change (create_cache_job c files directories recursive)
      with (perform c (CreateCacheJob files directories recursive)).
    rewrite perform_emitted. simpl.
    destruct (given files || given directories) eqn:Hg; [|constructor].
    repeat constructor. simpl. eexists. split; [reflexivity|].
    destruct (given files), (given directories); simpl;
      repeat split; intros; simplify_map_eq; try done;
      try (by eexists); by (destruct H).
Qed.

Lemma create_cache_job_body_witness :
  create_cache_job (__init__ default_api_url default_api_key) (Some []) (Some []) true
    {| script := []; log := [] |}
  = (Raise validation_error, {| script := []; log := [] |})
  ∧ create_cache_job (__init__ default_api_url default_api_key) (Some []) None false
      {| script := []; log := [] |}
    = (Raise validation_error, {| script := []; log := [] |}).
Proof.
  split.
  - apply (create_cache_job_body (__init__ default_api_url default_api_key)
             (Some []) (Some []) true {| script := []; log := [] |}); reflexivity.
  - apply (create_cache_job_body (__init__ default_api_url default_api_key)
             (Some []) None false {| script := []; log := [] |}); reflexivity.
Defined.

(** ** The streaming listener *)

Section Respects.

Variable R : MM.self → MM.self → Prop.
Hypothesis R_refl : ∀ s, R s s.
Hypothesis R_trans : ∀ s1 s2 s3, R s1 s2 → R s2 s3 → R s1 s3.

Lemma respects_ret {A} (a : A) : respects R (ret a).
Proof. intros s. split; [discriminate | apply R_refl]. Qed.

Lemma respects_raise {A} (e : exn) : respects R (raise e : M MM.self A).
Proof. intros s. split; [discriminate | apply R_refl]. Qed.

Lemma respects_bind {A B} (c : M MM.self A) (k : A → M MM.self B) :
  respects R c → (∀ a, respects R (k a)) → respects R (x <- c ;; k x).
Proof.
  intros Hc Hk s. unfold bind. destruct (Hc s) as [Hp Hr].
  destruct (c s) as [[a|e|] s'] eqn:E; simpl in *; try done.
  destruct (Hk a s') as [Hp' Hr']. split; [done | by eapply R_trans].
Qed.

Lemma respects_try {A} (c : M MM.self A) (h : exn → M MM.self A) :
  respects R c → (∀ e, respects R (h e)) → respects R (try_except c h).
Proof.
  intros Hc Hh s. unfold try_except. destruct (Hc s) as [Hp Hr].
  destruct (c s) as [[a|e|] s'] eqn:E; simpl in *; try done.
  destruct (Hh e s') as [Hp' Hr']. split; [done | by eapply R_trans].
Qed.

Lemma respects_getitem (v : json) (k : string) : respects R (getitem v k).
Proof.
  unfold getitem. destruct v; try apply respects_raise.
  destruct (fields !! k); [apply respects_ret | apply respects_raise].
Qed.

Lemma respects_dict_get (v : json) (k : string) (dflt : json) :
  respects R (dict_get v k dflt).
Proof. unfold dict_get. destruct v; first [apply respects_ret | apply respects_raise]. Qed.

Lemma respects_fixed2 (v : json) : respects R (fixed2 v).
Proof.
  unfold fixed2. destruct v; try case_match;
    first [apply respects_ret | apply respects_raise].
Qed.

End Respects.

Lemma same_metrics_refl (s : MM.self) : same_metrics s s.
Proof. reflexivity. Qed.

Lemma same_metrics_trans (s1 s2 s3 : MM.self) :
  same_metrics s1 s2 → same_metrics s2 s3 → same_metrics s1 s3.
Proof. unfold same_metrics. congruence. Qed.

Lemma any_change_trans (s1 s2 s3 : MM.self) :
  any_change s1 s2 → any_change s2 s3 → any_change s1 s3.
Proof. done. Qed.

Lemma respects_weaken {A} (R : MM.self → MM.self → Prop) (c : M MM.self A) :
  respects R c → respects any_change c.
Proof. intros H s. split; [apply H | done]. Qed.

Lemma print_same_metrics (line : list fragment) : respects same_metrics (MM.print line).
Proof. intros s. split; [discriminate | reflexivity]. Qed.

Lemma get_metric_same_metrics (k : string) : respects same_metrics (MM.get_metric k).
Proof.
  intros s. unfold MM.get_metric. destruct (MM.metrics s !! k); split; done.
Qed.

Lemma set_metric_any_change (k : string) (v : json) : respects any_change (MM.set_metric k v).
Proof. intros s. split; [discriminate | done]. Qed.

(** Breaks a composite monitor computation into its primitives. *)
Ltac respects_steps :=
  repeat first
    [ apply (respects_bind same_metrics same_metrics_trans); [| intros ?]
    | apply (respects_ret same_metrics same_metrics_refl)
    | apply (respects_raise same_metrics same_metrics_refl)
    | apply (respects_getitem same_metrics same_metrics_refl)
    | apply (respects_dict_get same_metrics same_metrics_refl)
    | apply (respects_fixed2 same_metrics same_metrics_refl)
    | apply print_same_metrics
    | apply get_metric_same_metrics
    | match goal with |- respects _ (if ?b then _ else _) => destruct b end ].

Lemma display_metrics_same_metrics (title : string) :
  respects same_metrics (MM._display_metrics title).
Proof. unfold MM._display_metrics. respects_steps. Qed.

Lemma set_metric_then {A} (k : string) (v : json) (c : M MM.self A) (s : MM.self) :
  respects same_metrics c →
  MM.metrics ((MM.set_metric k v ;; c) s).2 = <[k := v]> (MM.metrics s).
Proof.
  intros Hc. unfold bind. simpl.
  destruct (Hc (MM.set_metric k v s).2) as [_ H].
  unfold same_metrics in H. simpl in H. by rewrite H.
Qed.

Lemma set_metric_twice {A} (k1 k2 : string) (v1 v2 : json) (c : M MM.self A) (s : MM.self) :
  respects same_metrics c →
  MM.metrics ((MM.set_metric k1 v1 ;; MM.set_metric k2 v2 ;; c) s).2
  = <[k2 := v2]> (<[k1 := v1]> (MM.metrics s)).
Proof.
  intros Hc.
  change ((MM.set_metric k1 v1 ;; MM.set_metric k2 v2 ;; c) s)
    with ((MM.set_metric k2 v2 ;; c) (MM.set_metric k1 v1 s).2).
  by rewrite set_metric_then.
Qed.

Lemma try_except_metrics (c : M MM.self unit) (s : MM.self) :
  MM.metrics
    ((try_except c
        (λ e, match e with
              | TimeoutError => ret tt
              | _ => MM.print [Lit "Error: "; Exc e]
              end)) s).2
  = MM.metrics (c s).2.
Proof.
  unfold try_except. destruct (c s) as [[a|e|] s']; try done. by destruct e.
Qed.

Lemma eq_str_true (v : json) (s : string) : MM.eq_str v s = true ↔ v = JStr s.
Proof.
  destruct v; simpl; try (split; [discriminate | by intros [=]]).
  rewrite String.eqb_eq. split; [by intros -> | by intros [=]].
Qed.

Lemma eq_str_false (fields : gmap string json) (s : string) :
  fields !! "type" ≠ Some (JStr s) →
  MM.eq_str (default JNull (fields !! "type")) s = false.
Proof.
  intros Hne. apply not_true_iff_false. rewrite eq_str_true.
  destruct (fields !! "type"); simpl; [congruence | discriminate].
Qed.

(** The dispatch on a JSON object, with the [get] calls done. *)
Lemma dispatch_run (fields : gmap string json) :
  MM.dispatch (JObj fields) =
  if MM.eq_str (field fields "type") "metrics" then
    MM.set_metric "lucidLink" (field fields "lucidLink") ;;
    MM.set_metric "s3Health" (field fields "s3Health") ;;
    MM._display_metrics "Initial metrics received"
  else if MM.eq_str (field fields "type") "lucidlink-stats" then
    MM.set_metric "lucidLink" (field fields "lucidLink") ;;
    ll <- getitem (JObj fields) "lucidLink" ;;
    throughput <- getitem ll "throughputMbps" ;;
    shown <- fixed2 throughput ;;
    MM.print [Lit "LucidLink: "; shown; Lit " MB/s"]
  else if MM.eq_str (field fields "type") "s3-health" then
    MM.set_metric "s3Health" (field fields "s3Health") ;;
    health <- getitem (JObj fields) "s3Health" ;;
    healthy <- getitem health "isHealthy" ;;
    latency <- getitem health "latency" ;;
    average <- getitem health "averageLatency" ;;
    MM.print [Lit "S3 Health: "; Lit (if truthy healthy then "✅" else "❌");
              Lit " Latency: "; Val latency; Lit "ms (avg: "; Val average; Lit "ms)"]
  else ret tt.
Proof. reflexivity. Qed.

Lemma receive_object_metrics (fields : gmap string json) (s : MM.self) :
  MM.metrics (MM.receive (MM.Message (Some (JObj fields))) s).2
  = MM.metrics (MM.dispatch (JObj fields) s).2.
Proof. unfold MM.receive. by rewrite try_except_metrics. Qed.

(** C7: the handler of a streamed message looks at its [type] and stores only
    what that type carries: [metrics] stores both fields, [lucidlink-stats]
    only [lucidLink], [s3-health] only [s3Health], and any other message (an
    unknown or missing type, a message that is no JSON object or no JSON at
    all) leaves the stored metrics as they were.  This holds whether or not
    the printing that follows fails. *)
Theorem handler_updates_only_carried_fields (s : MM.self) (fields : gmap string json)
    (m : option json) :
  let after := MM.metrics (MM.receive (MM.Message (Some (JObj fields))) s).2 in
  (fields !! "type" = Some (JStr "metrics") →
   after = <["s3Health" := field fields "s3Health"]>
             (<["lucidLink" := field fields "lucidLink"]> (MM.metrics s)))
  ∧ (fields !! "type" = Some (JStr "lucidlink-stats") →
     after = <["lucidLink" := field fields "lucidLink"]> (MM.metrics s))
  ∧ (fields !! "type" = Some (JStr "s3-health") →
     after = <["s3Health" := field fields "s3Health"]> (MM.metrics s))
  ∧ (fields !! "type" ≠ Some (JStr "metrics") →
     fields !! "type" ≠ Some (JStr "lucidlink-stats") →
     fields !! "type" ≠ Some (JStr "s3-health") →
     after = MM.metrics s)
  ∧ ((∀ f, m ≠ Some (JObj f)) →
     MM.metrics (MM.receive (MM.Message m) s).2 = MM.metrics s).
Proof.
  assert (Htype : ∀ t, fields !! "type" = Some (JStr t) → field fields "type" = JStr t).
  { intros t Ht. unfold field. by rewrite Ht. }
  simpl. rewrite receive_object_metrics, dispatch_run.
  repeat split.
  - intros Hty. rewrite (Htype _ Hty).
    change (MM.eq_str (JStr "metrics") "metrics") with true. cbv iota.
    apply set_metric_twice, display_metrics_same_metrics.
  - intros Hty. rewrite (Htype _ Hty).
    change (MM.eq_str (JStr "lucidlink-stats") "metrics") with false.
    change (MM.eq_str (JStr "lucidlink-stats") "lucidlink-stats") with true. cbv iota.
    apply set_metric_then. respects_steps.
  - intros Hty. rewrite (Htype _ Hty).
    change (MM.eq_str (JStr "s3-health") "metrics") with false.
    change (MM.eq_str (JStr "s3-health") "lucidlink-stats") with false.
    change (MM.eq_str (JStr "s3-health") "s3-health") with true. cbv iota.
    apply set_metric_then. respects_steps.
  - intros H1 H2 H3. unfold field.
    by rewrite !eq_str_false.
  - intros Hm. unfold MM.receive. rewrite try_except_metrics.
    destruct m as [[| ? | ? | ? | ? | ? | f]|]; try done. by destruct (Hm f).
Qed.

Lemma handler_updates_only_carried_fields_witness :
  let s := MM.__init__ MM.default_ws_url in
  let stats : gmap string json :=
    <["type" := JStr "lucidlink-stats"]>
      (<["lucidLink" := JObj (<["throughputMbps" := JInt 12]> ∅)]> ∅) in
  MM.metrics (MM.receive (MM.Message (Some (JObj stats))) s).2
  = <["lucidLink" := field stats "lucidLink"]> (MM.metrics s).
Proof.
  intros s stats.
  apply (handler_updates_only_carried_fields s stats None).
  reflexivity.
Defined.

(** *** The receive loop *)

Ltac any_change_steps :=
  repeat first
    [ apply (respects_weaken same_metrics), display_metrics_same_metrics
    | apply (respects_bind any_change any_change_trans); [| intros ?]
    | apply (respects_ret any_change); done
    | apply (respects_raise any_change); done
    | apply (respects_getitem any_change); done
    | apply (respects_dict_get any_change); done
    | apply (respects_fixed2 any_change); done
    | apply set_metric_any_change
    | apply (respects_weaken same_metrics), print_same_metrics
    | match goal with |- respects _ (if ?b then _ else _) => destruct b end
    | match goal with |- respects _ (match ?x with _ => _ end) => destruct x end ].

Lemma dispatch_comes_back (data : json) : respects any_change (MM.dispatch data).
Proof. unfold MM.dispatch. any_change_steps. Qed.

(** Whatever the socket gives, the turn ends normally: the two handlers
    swallow every exception. *)
Lemma receive_returns (r : MM.received) (s : MM.self) : (MM.receive r s).1 = Return tt.
Proof.
  unfold MM.receive, try_except.
  match goal with |- context [match ?c s with _ => _ end] =>
    assert (Hc : respects any_change c)
  end.
  { unfold MM.wait_for_recv, MM.json_loads. any_change_steps. }
  destruct (Hc s) as [Hp _].
  match type of Hp with (?c s).1 ≠ _ => destruct (c s) as [[[]|e|] s'] end;
    simpl in *; try done.
  by destruct e.
Qed.

Lemma receive_silence (s : MM.self) : MM.receive MM.Silence s = (Return tt, s).
Proof. reflexivity. Qed.

Lemma monitor_loop_step (duration : option Z) (start_time now : Q) (r : MM.received)
    (feed : list (Q * MM.received)) (s : MM.self) :
  MM.monitor_loop duration start_time ((now, r) :: feed) s =
  if MM.expired duration start_time now
  then (Return tt, s)
  else MM.monitor_loop duration start_time feed (MM.receive r s).2.
Proof.
  simpl. destruct (MM.expired duration start_time now); [reflexivity|].
  rewrite bind_run. pose proof (receive_returns r s) as H.
  destruct (MM.receive r s) as [o s']. simpl in H. by subst o.
Qed.

Lemma expired_spec (duration : option Z) (start_time now : Q) :
  MM.expired duration start_time now = true
  ↔ ∃ n, duration = Some n ∧ n ≠ 0 ∧ (inject_Z n < now - start_time)%Q.
Proof.
  unfold MM.expired, MM.Qgt_bool. destruct duration as [n|].
  - rewrite andb_true_iff, !negb_true_iff, Z.eqb_neq.
    rewrite <- not_true_iff_false, Qle_bool_iff. split.
    + intros [Hn Hlt]. exists n. repeat split; [done|]. by apply Qnot_le_lt.
    + intros (n' & [= <-] & Hn & Hlt). split; [done|]. by apply Qlt_not_le.
  - split; [discriminate|]. by intros (n & ? & _).
Qed.

Lemma monitor_loop_pending (duration : option Z) (start_time : Q)
    (feed : list (Q * MM.received)) (s : MM.self) :
  Forall (λ turn, MM.expired duration start_time turn.1 = false) feed →
  (MM.monitor_loop duration start_time feed s).1 = Pending.
Proof.
  intros Hfeed. revert s. induction Hfeed as [|[now r] feed Hnow _ IH]; intros s.
  - reflexivity.
  - rewrite monitor_loop_step. simpl in Hnow. rewrite Hnow. apply IH.
Qed.

Lemma monitor_loop_exit (duration : option Z) (start_time : Q)
    (feed : list (Q * MM.received)) (s : MM.self) :
  (MM.monitor_loop duration start_time feed s).1 = Return tt →
  ∃ before now r after,
    feed = before ++ (now, r) :: after
    ∧ Forall (λ turn, MM.expired duration start_time turn.1 = false) before
    ∧ MM.expired duration start_time now = true.
Proof.
  revert s. induction feed as [|[now r] feed IH]; intros s.
  - discriminate.
  - rewrite monitor_loop_step.
    destruct (MM.expired duration start_time now) eqn:Hnow.
    + intros _. by exists [], now, r, feed.
    + intros H. destruct (IH _ H) as (before & now' & r' & after & -> & Hb & Hx).
      exists ((now, r) :: before), now', r', after. repeat split; [|done].
      by constructor.
Qed.

Lemma monitor_loop_zero (start_time : Q) (feed : list (Q * MM.received)) (s : MM.self) :
  MM.monitor_loop (Some 0) start_time feed s = MM.monitor_loop None start_time feed s.
Proof.
  revert s. induction feed as [|[now r] feed IH]; intros s; [reflexivity|].
  rewrite !monitor_loop_step. apply IH.
Qed.

Lemma connect_and_monitor_run (duration : option Z) (start_time : Q)
    (feed : list (Q * MM.received)) (s : MM.self) :
  MM.connect_and_monitor duration start_time None feed s =
  MM.monitor_loop duration start_time feed
    (MM.print [Lit "Connected to metrics WebSocket: "; Lit (MM.ws_url s)] s).2.
Proof. reflexivity. Qed.

(** C8, as stated, fails: with a negative [duration] the loop is left at the
    first check, although no positive duration was given or has elapsed. *)
Lemma negative_duration_exits_at_once :
  ¬ exits_only_after_positive_duration (Some (-1)) 0 [(0%Q, MM.Silence)]
      (MM.__init__ MM.default_ws_url).
Proof.
  intros H. destruct H as (n & now & r & [= <-] & Hpos & _); [reflexivity | lia].
Qed.

(** C8 (amended): a receive timeout, and any other exception of a turn, never
    ends the loop: every turn comes back normally (a timeout without any
    change), so the loop is still running after any feed on which the duration
    check did not fire; it is left only through that check, that is when
    [duration] is a non-zero number and the elapsed time exceeds it. *)
Theorem loop_outlives_timeouts (duration : option Z) (start_time : Q)
    (feed : list (Q * MM.received)) (s : MM.self) :
  (∀ r s', (MM.receive r s').1 = Return tt)
  ∧ (∀ s', MM.receive MM.Silence s' = (Return tt, s'))
  ∧ (Forall (λ turn, MM.expired duration start_time turn.1 = false) feed →
     (MM.connect_and_monitor duration start_time None feed s).1 = Pending)
  ∧ ((MM.connect_and_monitor duration start_time None feed s).1 = Return tt →
     ∃ n before now r after,
       duration = Some n ∧ n ≠ 0
       ∧ feed = before ++ (now, r) :: after
       ∧ (inject_Z n < now - start_time)%Q).
Proof.
  split; [apply receive_returns|]. split; [apply receive_silence|].
  rewrite connect_and_monitor_run. split.
  - apply monitor_loop_pending.
  - intros H. apply monitor_loop_exit in H as (before & now & r & after & -> & _ & Hx).
    apply expired_spec in Hx as (n & -> & Hn & Hlt).
    by exists n, before, now, r, after.
Qed.

Lemma loop_outlives_timeouts_witness :
  (MM.connect_and_monitor (Some 30) 100
     None
     [(101%Q, MM.Silence); (102%Q, MM.Broken ConnectionClosed); (103%Q, MM.Message None)]
     (MM.__init__ MM.default_ws_url)).1 = Pending.
Proof.
  apply (loop_outlives_timeouts (Some 30) 100
           [(101%Q, MM.Silence); (102%Q, MM.Broken ConnectionClosed);
            (103%Q, MM.Message None)]
           (MM.__init__ MM.default_ws_url)).
  repeat constructor.
Defined.

(** C9, as stated, fails in its last part: a negative [duration] is not a
    positive number, and the elapsed-time check ends the loop at once. *)
Lemma negative_duration_ends_loop :
  ¬ exits_only_with_positive_duration (Some (-5)) 0
      [(1%Q, MM.Message None); (2%Q, MM.Silence)] (MM.__init__ MM.default_ws_url).
Proof.
  intros H. destruct H as (n & [= <-] & Hpos); [reflexivity | lia].
Qed.

(** C9 (amended): [duration = 0] behaves like [duration = None]: the
    elapsed-time check never fires and the loop does not end on its own; the
    loop can end by elapsed time only when [duration] is a non-zero number. *)
Theorem zero_duration_is_forever (duration : option Z) (start_time : Q)
    (connect : option exn) (feed : list (Q * MM.received)) (s : MM.self) :
  MM.connect_and_monitor (Some 0) start_time connect feed s
  = MM.connect_and_monitor None start_time connect feed s
  ∧ (∀ now, MM.expired (Some 0) start_time now = false)
  ∧ (MM.connect_and_monitor (Some 0) start_time None feed s).1 = Pending
  ∧ ((MM.connect_and_monitor duration start_time None feed s).1 = Return tt →
     ∃ n, duration = Some n ∧ n ≠ 0).
Proof.
  repeat split.
  - destruct connect; [reflexivity|]. unfold MM.connect_and_monitor.
    rewrite !bind_run. simpl. apply monitor_loop_zero.
  - rewrite connect_and_monitor_run. apply monitor_loop_pending.
    by apply Forall_forall.
  - rewrite connect_and_monitor_run. intros H.
    apply monitor_loop_exit in H as (_ & now & _ & _ & _ & _ & Hx).
    apply expired_spec in Hx as (n & -> & Hn & _). by exists n.
Qed.

Lemma zero_duration_is_forever_witness :
  let run :=
    MM.connect_and_monitor (Some 30) 0 None [(31%Q, MM.Silence)]
      (MM.__init__ MM.default_ws_url) in
  run.1 = Return tt ∧ ∃ n, Some 30 = Some n ∧ n ≠ 0.
Proof.
  intros run. split; [reflexivity|].
  apply (zero_duration_is_forever (Some 30) 0 None [(31%Q, MM.Silence)]
           (MM.__init__ MM.default_ws_url)).
  reflexivity.
Defined.

(** ** Polling a job *)

Lemma display_progress_run (job : json) (w : world) :
  has_progress job = true →
  ∃ line, display_progress job w = (Return tt, record (Printed line) w).
Proof.
  unfold has_progress, display_progress. intros H.
  destruct job as [| | | | | |fields]; try done.
  destruct (fields !! "progress") as [[| | | | | |progress]|] eqn:Hp; try done.
  destruct (progress !! "size") as [[| | | | | |size]|] eqn:Hs; try done.
  destruct (size !! "completedReadable") as [x|] eqn:Hx; try done.
  destruct (size !! "totalReadable") as [y|] eqn:Hy; try done.
  destruct (size !! "percentage") as [z|] eqn:Hz; try done.
  eexists. unfold getitem, bind. rewrite Hp. simpl. rewrite Hs. simpl.
  rewrite Hx, Hy, Hz. simpl. reflexivity.
Qed.

(** The reporting step of one iteration. *)
Lemma report_run (cb : option callback) (job : json) (w : world) :
  observed cb job →
  ∃ lines,
    (match cb with
     | Some f => call f job
     | None => display_progress job ;; ret job
     end) w = (Return job, {| script := script w; log := log w ++ lines |})
    ∧ requests lines = [] ∧ sleeps lines = [].
Proof.
  destruct cb as [f|]; simpl; intros H.
  - exists []. unfold call. rewrite H, app_nil_r. by destruct w.
  - destruct (display_progress_run job w H) as [line Hl].
    exists [Printed line]. rewrite bind_run, Hl. done.
Qed.

Lemma monitor_loop_S (fuel : nat) (c : self) (job_id : string) (interval : Z)
    (cb : option callback) :
  monitor_loop (S fuel) c job_id interval cb =
  (status <- perform c (GetJobStatus job_id) ;;
   job <- getitem status "job" ;;
   job <- match cb with
          | Some f => call f job
          | None => display_progress job ;; ret job
          end ;;
   st <- getitem job "status" ;;
   if is_terminal st
   then print [] ;; ret job
   else sleep interval ;; monitor_loop fuel c job_id interval cb).
Proof. reflexivity. Qed.

Lemma getitem_run {S} (fields : gmap string json) (k : string) (v : json) (s : S) :
  fields !! k = Some v → getitem (JObj fields) k s = (Return v, s).
Proof. intros H. unfold getitem. by rewrite H. Qed.

(** [time.sleep] on a delay it accepts, and on a negative one. *)
Lemma sleep_run (seconds : Z) (w : world) :
  sleepable seconds = true → sleep seconds w = (Return tt, record (Slept seconds) w).
Proof.
  unfold sleepable, sleep. intros H.
  apply andb_true_iff in H as [H0 H1].
  apply Z.leb_le in H0. apply Z.leb_le in H1.
  assert (0 < max_sleep) by done.
  destruct (Z.ltb_spec seconds (- max_sleep)); [lia|].
  destruct (Z.ltb_spec max_sleep seconds); [lia|].
  destruct (Z.ltb_spec seconds 0); [lia|].
  reflexivity.
Qed.


(** A delay that is refused is refused before anything is slept. *)
Lemma sleep_refused (seconds : Z) (w : world) :
  sleepable seconds = false → ∃ e, sleep seconds w = (Raise e, w).
Proof.
  unfold sleepable, sleep. intros H.
  destruct ((seconds <? - max_sleep) || (max_sleep <? seconds)) eqn:Hbig;
    [by eexists|].
  destruct (seconds <? 0) eqn:Hneg; [by eexists|].
  apply orb_false_iff in Hbig as [_ Hbig].
  apply Z.ltb_ge in Hneg. apply Z.ltb_ge in Hbig.
  apply andb_false_iff in H as [H|H]; apply Z.leb_gt in H; lia.
Qed.

(** One turn of the polling loop on a reply that delivers a job. *)
Lemma monitor_iteration (fuel : nat) (c : self) (job_id : string) (interval : Z)
    (cb : option callback) (w : world) (a : reply) (rest : list reply) (job : json) :
  script w = a :: rest →
  delivers a job →
  observed cb job →
  is_Some (status_of job) →
  ∃ lines, requests lines = [] ∧ sleeps lines = [] ∧
    let w1 := {| script := rest;
                 log := log w ++ Http (poll_request c job_id) (Some a) :: lines |} in
    monitor_loop (S fuel) c job_id interval cb w =
    if finished job
    then (Return job, record (Printed []) w1)
    else (sleep interval ;; monitor_loop fuel c job_id interval cb) w1.
Proof.
  intros Hscript (fields & Ha & Hjob) Hobs [st Hst].
  set (w0 := {| script := rest; log := log w ++ [Http (poll_request c job_id) (Some a)] |}).
  destruct (report_run cb job w0 Hobs) as (lines & Hrun & Hreq & Hsl).
  exists lines. repeat split; try done. cbv zeta.
  rewrite monitor_loop_S, bind_run, perform_run. simpl reaches_network. cbv iota.
  rewrite Hscript, Ha, bind_run, (getitem_run _ _ _ _ Hjob), bind_run.
  fold (poll_request c job_id). fold w0. rewrite Hrun, bind_run.
  unfold finished. rewrite Hst.
  destruct job as [| | | | | |jf]; try done. simpl in Hst.
  rewrite (getitem_run _ _ _ _ Hst). subst w0. simpl.
  rewrite <- app_assoc. simpl.
  destruct (is_terminal st); reflexivity.
Qed.

Lemma requests_app (l1 l2 : list event) : requests (l1 ++ l2) = requests l1 ++ requests l2.
Proof. apply omap_app. Qed.

Lemma sleeps_app (l1 l2 : list event) : sleeps (l1 ++ l2) = sleeps l1 ++ sleeps l2.
Proof. apply omap_app. Qed.

Lemma in_progress_status (job : json) :
  in_progress job = true → is_Some (status_of job) ∧ finished job = false.
Proof.
  unfold in_progress, finished. destruct (status_of job) as [st|]; [|done].
  intros H. split; [by eexists|]. by apply negb_true_iff.
Qed.


Section Polling.

Variables (c : self) (job_id : string) (interval : Z) (cb : option callback).



End Polling.



Lemma sample_poll_delivers (status : string) :
  delivers (sample_poll status) (sample_job status).
Proof. eexists. split; [reflexivity|]. by simplify_map_eq. Qed.




(** ** Batch submission *)

Section Moves.

Context {S : Type} (R : S → S → Prop).
Hypothesis R_refl : ∀ s, R s s.
Hypothesis R_trans : ∀ s1 s2 s3, R s1 s2 → R s2 s3 → R s1 s3.

Lemma moves_ret {A} (a : A) : moves R (ret a).
Proof. intros s. apply R_refl. Qed.

Lemma moves_raise {A} (e : exn) : moves R (raise e : M S A).
Proof. intros s. apply R_refl. Qed.

Lemma moves_bind {A B} (c : M S A) (k : A → M S B) :
  moves R c → (∀ a, moves R (k a)) → moves R (x <- c ;; k x).
Proof.
  intros Hc Hk s. unfold bind. specialize (Hc s).
  destruct (c s) as [[a|e|] s']; simpl in *; try done.
  eapply R_trans; [done | apply Hk].
Qed.

Lemma moves_try {A} (c : M S A) (h : exn → M S A) :
  moves R c → (∀ e, moves R (h e)) → moves R (try_except c h).
Proof.
  intros Hc Hh s. unfold try_except. specialize (Hc s).
  destruct (c s) as [[a|e|] s']; simpl in *; try done.
  eapply R_trans; [done | apply Hh].
Qed.

Lemma moves_getitem (v : json) (k : string) : moves R (getitem v k).
Proof.
  unfold getitem. destruct v; try apply moves_raise.
  destruct (fields !! k); [apply moves_ret | apply moves_raise].
Qed.

End Moves.

Lemma grows_refl (w : world) : grows w w.
Proof. exists []. by rewrite app_nil_r. Qed.

Lemma grows_trans (w1 w2 w3 : world) : grows w1 w2 → grows w2 w3 → grows w1 w3.
Proof.
  intros (o1 & H1 & Hq1 & Hl1) (o2 & H2 & Hq2 & Hl2). exists (o1 ++ o2).
  rewrite H2, H1, app_assoc. repeat split; [by apply Forall_app | lia].
Qed.

Lemma grows_record (ev : event) (w : world) : is_post ev = false → grows w (record ev w).
Proof. intros H. exists [ev]. repeat split; [by repeat constructor | done]. Qed.

Lemma grows_beside_refl {L} (s : world * L) : grows_beside s s.
Proof. split; [done | apply grows_refl]. Qed.

Lemma grows_beside_trans {L} (s1 s2 s3 : world * L) :
  grows_beside s1 s2 → grows_beside s2 s3 → grows_beside s1 s3.
Proof.
  intros [E1 G1] [E2 G2]. split; [congruence | by eapply grows_trans].
Qed.

Lemma print_grows (line : list fragment) : moves grows (print line).
Proof. intros w. by apply grows_record. Qed.

Lemma sleep_grows (seconds : Z) : moves grows (sleep seconds).
Proof.
  unfold sleep. repeat case_match; try (apply moves_raise; apply grows_refl).
  intros w. by apply grows_record.
Qed.

Lemma get_job_status_grows (c : self) (job_id : string) :
  moves grows (get_job_status c job_id).
Proof.
  intros w. change (get_job_status c job_id) with (perform c (GetJobStatus job_id)).
  rewrite perform_run. simpl reaches_network. cbv iota.
  destruct (script w) as [|a rest] eqn:Hs; simpl.
  - by apply grows_record.
  - eexists [_]. simpl. repeat split; [by repeat constructor | rewrite Hs; simpl; lia].
Qed.

Lemma call_grows (f : callback) (job : json) : moves grows (call f job).
Proof.
  unfold call. destruct (f job); [apply moves_raise | apply moves_ret]; apply grows_refl.
Qed.

(** Breaks a composite client computation into its primitives. *)
Ltac grows_steps known :=
  repeat first
    [ known
    | apply print_grows
    | apply sleep_grows
    | apply call_grows
    | apply get_job_status_grows
    | apply (moves_ret grows grows_refl)
    | apply (moves_raise grows grows_refl)
    | apply (moves_getitem grows grows_refl)
    | apply (moves_bind grows grows_trans); [| intros ?]
    | match goal with |- moves _ (if ?b then _ else _) => destruct b end
    | match goal with |- moves _ (match ?x with _ => _ end) => destruct x end ].

Lemma display_progress_grows (job : json) : moves grows (display_progress job).
Proof. unfold display_progress. grows_steps fail. Qed.

Lemma monitor_loop_grows (fuel : nat) (c : self) (job_id : string) (interval : Z)
    (cb : option callback) :
  moves grows (monitor_loop fuel c job_id interval cb).
Proof.
  induction fuel as [|fuel IH]; [intros w; apply grows_refl|].
  simpl. grows_steps ltac:(first [apply display_progress_grows | apply IH]).
Qed.

Lemma monitor_job_grows (c : self) (job_id : string) (interval : Z) (cb : option callback) :
  moves grows (monitor_job c job_id interval cb).
Proof. intros w. apply monitor_loop_grows. Qed.

Lemma in_world_run {L A} (c : M world A) (w : world) (l : L) :
  in_world c (w, l) = ((c w).1, ((c w).2, l)).
Proof. unfold in_world. by destruct (c w). Qed.

Lemma in_world_grows {L A} (c : M world A) :
  moves grows c → moves (@grows_beside L) (in_world c).
Proof. intros Hc [w l]. rewrite in_world_run. split; [done | apply Hc]. Qed.

Ltac beside_steps :=
  repeat first
    [ apply in_world_grows; first [apply print_grows | apply monitor_job_grows]
    | apply (moves_ret grows_beside grows_beside_refl)
    | apply (moves_getitem grows_beside grows_beside_refl)
    | apply (moves_bind grows_beside grows_beside_trans); [| intros ?]
    | match goal with |- moves _ (if ?b then _ else _) => destruct b end ].

Lemma after_created_grows (py_repr : json → string) (c : self) (monitor : bool)
    (result job_id : json) :
  moves grows_beside (after_created py_repr c monitor result job_id).
Proof. unfold after_created. beside_steps. Qed.

(** Without monitoring, what follows the creation only prints and looks up:
    it ends at once and takes no reply. *)
Lemma after_created_unmonitored (py_repr : json → string) (c : self)
    (result job_id : json) (s : world * list json) :
  (after_created py_repr c false result job_id s).1 ≠ Pending
  ∧ script (after_created py_repr c false result job_id s).2.1 = script s.1.
Proof.
  destruct s as [w l].
  unfold after_created, bind, getitem, in_world, print, ret, raise. simpl.
  repeat case_match; simplify_eq; done.
Qed.

Lemma submit_eq (py_repr : json → string) (c : self) (monitor : bool) (directory : string) :
  submit py_repr c monitor directory =
  try_except
    (in_world (print [Lit "Submitting job for: "; Val (JStr directory)]) ;;
     result <- in_world (perform c (CreateCacheJob None (Some [directory]) true)) ;;
     job_id <- getitem result "jobId" ;;
     append job_id ;;
     after_created py_repr c monitor result job_id)
    (λ e, in_world (print [Lit "  Error: "; Exc e])).
Proof. reflexivity. Qed.

Lemma reply_outcome_settles (a : reply) : reply_outcome a ≠ Pending.
Proof.
  destruct a as [resp|kind]; simpl; [|done].
  destruct (is_failure (status_code resp)); [done|]. by destruct (decoded resp).
Qed.

Lemma no_post_created (out : list event) :
  Forall (λ ev, is_post ev = false) out → omap created out = [] ∧ omap submitted out = [].
Proof.
  induction 1 as [|ev out Hev _ [IH1 IH2]]; [done|].
  assert (created ev = None ∧ submitted ev = None) as [H1 H2].
  { destruct ev as [r [a|]| |]; simpl in *; try done; by destruct (req_method r). }
  simpl. by rewrite H1, H2.
Qed.

Lemma creation_submits (c : self) (directory : string) (a : option reply) :
  submitted (Http (creation_request c directory) a) = Some (str_list [directory]).
Proof. simpl. by simplify_map_eq. Qed.

Lemma created_by_reply (r : request) (a : reply) (result : json) :
  req_method r = POST → reply_outcome a = Return result →
  created (Http r (Some a)) =
  match result with
  | JObj fields => fields !! "jobId"
  | _ => None
  end.
Proof. intros Hm Ho. simpl. by rewrite Hm, Ho. Qed.

Lemma omap_cons_run {A B} (f : A → option B) (x : A) (l : list A) :
  omap f (x :: l) = match f x with Some y => y :: omap f l | None => omap f l end.
Proof. reflexivity. Qed.

Ltac close_result :=
  repeat split; simpl; try first [done | lia | by simplify_map_eq].

Lemma submit_run (py_repr : json → string) (c : self) (monitor : bool)
    (directory : string) (w : world) (l : list json) :
  submit_result monitor directory w l (submit py_repr c monitor directory (w, l)).
Proof.
  rewrite submit_eq. unfold try_except.
  rewrite bind_run, in_world_run. simpl fst. simpl snd. cbv iota.
  rewrite bind_run, in_world_run, perform_run. simpl reaches_network. cbv iota.
  fold (creation_request c directory).
  set (line := Printed [Lit "Submitting job for: "; Val (JStr directory)]).
  change (script (record line w)) with (script w).
  destruct (script w) as [|a rest] eqn:Hs; simpl fst; simpl snd; cbv iota.
  { (* the request is out, no reply yet *)
    exists [line; Http (creation_request c directory) None]. simpl.
    rewrite <- app_assoc, app_nil_r, Hs. close_result. }
  destruct (reply_outcome a) as [result|e|] eqn:Ho; cbv iota.
  3: { by destruct (reply_outcome_settles a). }
  2: { (* the creation raised: reported, nothing appended *)
    rewrite in_world_run. simpl.
    exists [line; Http (creation_request c directory) (Some a);
            Printed [Lit "  Error: "; Exc e]].
    simpl. rewrite Ho, <- !app_assoc, app_nil_r, Hs. close_result. }
  pose proof (created_by_reply (creation_request c directory) a result eq_refl Ho) as Hcr.
  match goal with |- context [bind (getitem result "jobId") _ ?s] =>
    destruct (getitem_inv result "jobId" s)
      as [(fields & job_id & -> & Hid & Hget) | (e & Hget & Hnone)]
  end; rewrite bind_run, Hget; cbv iota.
  2: { (* no job id in the answer: reported, nothing appended *)
    rewrite in_world_run. simpl.
    exists [line; Http (creation_request c directory) (Some a);
            Printed [Lit "  Error: "; Exc e]].
    assert (Hno : created (Http (creation_request c directory) (Some a)) = None).
    { rewrite Hcr. destruct result; try done. by apply Hnone. }
    unfold line. rewrite !omap_cons_run, Hno. simpl.
    rewrite <- !app_assoc, app_nil_r, Hs. close_result. }
  rewrite Hid in Hcr. rewrite bind_run. simpl (append _ _).  cbv iota.
  match goal with |- context [after_created ?p ?c ?m ?r ?j ?s] =>
    pose proof (after_created_grows p c m r j s) as [Hl (o2 & Hlog & Hq & Hlen)];
    pose proof (after_created_unmonitored p c r j s) as Hquick;
    destruct (after_created p c m r j s) as [r2 [w2 l2]] eqn:Hafter
  end.
  simpl in Hl, Hlog, Hlen. subst l2.
  apply no_post_created in Hq as [Hq1 Hq2].
  assert (Hunmonitored : monitor = false → r2 ≠ Pending ∧ script w2 = rest).
  { intros ->. by rewrite Hafter in Hquick. }
  clear Hquick Hafter Hget.
  assert (Hc : ∀ tail, omap created tail = [] →
            omap created (line :: Http (creation_request c directory) (Some a) :: o2 ++ tail)
            = [job_id]).
  { intros tail Ht. unfold line. by rewrite !omap_cons_run, Hcr, omap_app, Hq1, Ht. }
  assert (Hsub : ∀ tail, omap submitted tail = [] →
            omap submitted
              (line :: Http (creation_request c directory) (Some a) :: o2 ++ tail)
            = [str_list [directory]]).
  { intros tail Ht. unfold line.
    by rewrite !omap_cons_run, creation_submits, omap_app, Hq2, Ht. }
  destruct r2 as [[]|e|]; [| rewrite in_world_run |].
  - exists (line :: Http (creation_request c directory) (Some a) :: o2 ++ []).
    rewrite Hc, Hsub by done. simpl fst. simpl snd.
    rewrite Hlog, app_nil_r, <- !app_assoc, Hs.
    repeat split; simpl; try first [done | lia]; by apply Hunmonitored.
  - exists (line :: Http (creation_request c directory) (Some a)
              :: o2 ++ [Printed [Lit "  Error: "; Exc e]]).
    rewrite Hc, Hsub by done. simpl fst. simpl snd.
    simpl log. rewrite Hlog, <- !app_assoc, Hs.
    repeat split; simpl; try first [done | lia]; by apply Hunmonitored.
  - exists (line :: Http (creation_request c directory) (Some a) :: o2 ++ []).
    rewrite Hc, Hsub by done. simpl fst. simpl snd.
    rewrite Hlog, app_nil_r, <- !app_assoc, Hs.
    repeat split; simpl; try first [done | lia].
    all: by destruct Hunmonitored.
Qed.


(** A submission that fails is caught and reported on the console, and
    [job_ids] stays as it was. *)
Lemma submit_reports_failure (py_repr : json → string) (c : self) (monitor : bool)
    (d : string) (w : world) (l : list json) (a : reply) (rest : list reply) (e : exn) :
  script w = a :: rest →
  reply_outcome a = Raise e →
  submit py_repr c monitor d (w, l)
  = (Return tt,
     ({| script := rest;
         log := log w ++ [Printed [Lit "Submitting job for: "; Val (JStr d)];
                          Http (creation_request c d) (Some a);
                          Printed [Lit "  Error: "; Exc e]] |}, l)).
Proof.
  intros Hs Ho. rewrite submit_eq. unfold try_except.
  rewrite bind_run, in_world_run. simpl fst. simpl snd. cbv iota.
  rewrite bind_run, in_world_run, perform_run. simpl reaches_network. cbv iota.
  change (script (record ?ev w)) with (script w). rewrite Hs. simpl fst. simpl snd.
  rewrite Ho. cbv iota. rewrite in_world_run. unfold print, record. simpl.
  by rewrite <- !app_assoc.
Qed.

(** A monitored batch: the first directory is refused by the service, the
    second is created and followed until it completes, the third loses the
    connection; one job id comes back. *)
Example batch_with_failures :
  (batch_cache_directories (λ _, "") sample_client ["a"; "b"; "c"] true
     {| script := [sample_outage; sample_created "job-2"; sample_poll "running";
                   sample_poll "completed"; Refuse "ConnectionError"];
        log := [] |}).1
  = Return [JStr "job-2"].
Proof. vm_compute. reflexivity. Qed.

(** ** The bound on the polling loop is no restriction *)

Lemma bind_cong {S A B} (R : S → S → Prop) (c : M S A) (k1 k2 : A → M S B) (s : S) :
  moves R c →
  (∀ a s', R s s' → k1 a s' = k2 a s') →
  (x <- c ;; k1 x) s = (x <- c ;; k2 x) s.
Proof.
  intros Hc Hk. rewrite !bind_run. specialize (Hc s).
  destruct (c s) as [[a|e|] s']; try done. by apply Hk.
Qed.

Lemma monitor_loop_fuel (c : self) (job_id : string) (interval : Z) (cb : option callback)
    (n : nat) :
  ∀ (w : world) (fuel1 fuel2 : nat),
    (length (script w) ≤ n)%nat → (n < fuel1)%nat → (n < fuel2)%nat →
    monitor_loop fuel1 c job_id interval cb w = monitor_loop fuel2 c job_id interval cb w.
Proof.
  induction n as [|n IH]; intros w fuel1 fuel2 Hlen H1 H2;
    (destruct fuel1 as [|fuel1]; [lia|]); (destruct fuel2 as [|fuel2]; [lia|]);
    rewrite !monitor_loop_S, !bind_run, perform_run; simpl reaches_network; cbv iota;
    (destruct (script w) as [|a rest] eqn:Hs; [reflexivity|]).
  { simpl in Hlen. lia. }
  destruct (reply_outcome a) as [status| |]; try reflexivity.
  match goal with |- context [{| script := rest; log := ?l |}] =>
    set (w1 := {| script := rest; log := l |})
  end.
  apply (bind_cong grows); [apply (moves_getitem grows grows_refl)|].
  intros job w2 G2.
  apply (bind_cong grows).
  { destruct cb; grows_steps ltac:(apply display_progress_grows). }
  intros job' w3 G3.
  apply (bind_cong grows); [apply (moves_getitem grows grows_refl)|].
  intros st w4 G4. destruct (is_terminal st); [reflexivity|].
  apply (bind_cong grows); [apply sleep_grows|].
  intros _ w5 G5. apply IH; [|lia..].
  pose proof (grows_trans _ _ _ (grows_trans _ _ _ (grows_trans _ _ _ G2 G3) G4) G5)
    as (_ & _ & _ & Hle).
  simpl in Hlen, Hle. lia.
Qed.

(** Any number of iterations beyond the scripted replies gives the run of
    [monitor_job]. *)
Lemma monitor_loop_enough (fuel : nat) (c : self) (job_id : string) (interval : Z)
    (cb : option callback) (w : world) :
  (length (script w) < fuel)%nat →
  monitor_loop fuel c job_id interval cb w = monitor_job c job_id interval cb w.
Proof.
  intros H. unfold monitor_job. apply (monitor_loop_fuel _ _ _ _ (length (script w))); lia.
Qed.

(** ** Further properties of the REST operations *)

Lemma append_nil_l (s : string) : "" +:+ s = s.
Proof. reflexivity. Qed.

Lemma append_cons (c : ascii) (s t : string) : String c s +:+ t = String c (s +:+ t).
Proof. reflexivity. Qed.

Lemma rstrip_slash_app_slash (s : string) : rstrip_slash (s +:+ "/") = rstrip_slash s.
Proof.
  induction s as [|c s IH]; [reflexivity|].
  rewrite append_cons. simpl. by rewrite IH.
Qed.

Lemma rstrip_slash_decompose (s : string) :
  ends_with_slash (rstrip_slash s) = false ∧ ∃ n, s = rstrip_slash s +:+ slashes n.
Proof.
  induction s as [|c s [IH1 [n IH2]]]; [split; [done | by exists 0%nat]|].
  simpl. destruct (rstrip_slash s) as [|c' r] eqn:Hr.
  - rewrite append_nil_l in IH2. destruct (Ascii.eqb c "/") eqn:Hc.
    + split; [done|]. apply Ascii.eqb_eq in Hc as ->.
      exists (S n). rewrite append_nil_l. simpl. congruence.
    + split; [simpl; by rewrite Hc|]. exists n. rewrite append_cons, append_nil_l. congruence.
  - split; [done|]. exists n. rewrite append_cons. congruence.
Qed.

(** X1: the client keeps its base URL without trailing slashes: the stored
    [api_url] never ends in a slash, the given URL is the stored one followed
    by slashes only, and one more trailing slash on the given URL makes no
    difference to the client that is built. *)
Theorem base_url_is_normalised (url key : string) :
  ends_with_slash (api_url (__init__ url key)) = false
  ∧ (∃ n, url = api_url (__init__ url key) +:+ slashes n)
  ∧ __init__ (url +:+ "/") key = __init__ url key.
Proof.
  destruct (rstrip_slash_decompose url) as [H1 H2].
  split; [exact H1|]. split; [exact H2|].
  unfold __init__. by rewrite rstrip_slash_app_slash.
Qed.

(** X2: no operation retries or waits: whatever the reply (a failure status,
    a refused connection, an undecodable body), an operation that reaches the
    network sends one request and takes one reply, leaving the later replies
    untouched, and never sleeps; one that refuses its arguments takes none. *)
Theorem operations_exchange_once (c : self) (op : operation) (w : world) :
  script (perform c op w).2 = (if reaches_network op then tail (script w) else script w)
  ∧ length (requests (emitted (perform c op) w)) = (if reaches_network op then 1 else 0)%nat
  ∧ sleeps (emitted (perform c op) w) = [].
Proof.
  rewrite perform_emitted, perform_run.
  destruct (reaches_network op); [|done].
  destruct (script w) eqn:Hs; simpl; [by rewrite Hs | done].
Qed.

(** X3: failures other than an HTTP status come out as exceptions too: a
    transport failure raises the request exception, and a reply with a
    success status whose body is not JSON raises the decoding error instead
    of returning. *)
Theorem transport_and_decoding_errors (c : self) (op : operation) (w : world)
    (a : reply) (rest : list reply) :
  script w = a :: rest →
  reaches_network op = true →
  (∀ kind, a = Refuse kind → (perform c op w).1 = Raise (RequestException kind))
  ∧ (∀ resp, a = Answer resp → ¬ 400 ≤ status_code resp < 600 → decoded resp = None →
       (perform c op w).1 = Raise JSONDecodeError).
Proof.
  intros Hs Hnet. rewrite perform_run, Hnet, Hs. split.
  - by intros kind ->.
  - intros resp -> Hok Hdec. simpl. rewrite Hdec.
    destruct (is_failure (status_code resp)) eqn:Hf; [|done].
    by apply is_failure_spec in Hf.
Qed.

Lemma transport_and_decoding_errors_witness :
  (perform sample_client (ListJobs 1 10 None)
     {| script := [Refuse "ConnectionError"]; log := [] |}).1
  = Raise (RequestException "ConnectionError")
  ∧ (perform sample_client (GetJobStatus "job-1")
       {| script := [Answer {| status_code := 204; decoded := None |}]; log := [] |}).1
    = Raise JSONDecodeError.
Proof.
  split.
  - apply (transport_and_decoding_errors sample_client (ListJobs 1 10 None)
             {| script := [Refuse "ConnectionError"]; log := [] |}
             (Refuse "ConnectionError") []); reflexivity.
  - apply (transport_and_decoding_errors sample_client (GetJobStatus "job-1")
             {| script := [Answer {| status_code := 204; decoded := None |}]; log := [] |}
             (Answer {| status_code := 204; decoded := None |}) []
             eq_refl eq_refl) with (resp := {| status_code := 204; decoded := None |});
      [reflexivity | simpl; lia | reflexivity].
Defined.

(** X4: the body of a job-creation request holds the lists as they were
    given, element by element and in order, the [recursive] flag as given,
    and nothing besides [files], [directories] and [recursive]. *)
Theorem create_cache_job_sends_lists_as_given (c : self)
    (files directories : option (list string)) (recursive : bool) (w : world) :
  Forall
    (λ req, req_method req = POST ∧ req_params req = None
       ∧ ∃ data,
           req_json req = Some data
           ∧ data !! "files" = (if given files then str_list <$> files else None)
           ∧ data !! "directories"
             = (if given directories then str_list <$> directories else None)
           ∧ data !! "recursive" = Some (JBool recursive)
           ∧ ∀ k, is_Some (data !! k) → k ∈ ["files"; "directories"; "recursive"])
    (requests (emitted (create_cache_job c files directories recursive) w)).
Proof.
  change (create_cache_job c files directories recursive)
    with (perform c (CreateCacheJob files directories recursive)).
  rewrite perform_emitted. simpl.
  destruct (given files || given directories) eqn:Hg; [|constructor].
  repeat constructor. simpl. eexists. split; [reflexivity|].
  assert (Hf : given files = true → ∃ fs, files = Some fs).
  { destruct files; [by eexists | done]. }
  assert (Hd : given directories = true → ∃ ds, directories = Some ds).
  { destruct directories; [by eexists | done]. }
  destruct (given files) eqn:Hgf, (given directories) eqn:Hgd; simpl;
    try (destruct Hf as [fs ->]; [done|]); try (destruct Hd as [ds ->]; [done|]);
    (split; [by simplify_map_eq|]); (split; [by simplify_map_eq|]);
    (split; [by simplify_map_eq|]);
    intros k [v Hk]; repeat (apply lookup_insert_Some in Hk as [[<- _]|[_ Hk]];
      [set_solver|]); by rewrite lookup_empty in Hk.
Qed.

(** ** Further properties of polling *)

Section SettlesIn.

Context {S : Type} (R : S → S → Prop).
Hypothesis R_refl : ∀ s, R s s.
Hypothesis R_trans : ∀ s1 s2 s3, R s1 s2 → R s2 s3 → R s1 s3.

Lemma settles_ret {A} (a : A) : settles_in R (ret a).
Proof. intros s. split; [discriminate | apply R_refl]. Qed.

Lemma settles_raise {A} (e : exn) : settles_in R (raise e : M S A).
Proof. intros s. split; [discriminate | apply R_refl]. Qed.

Lemma settles_bind {A B} (c : M S A) (k : A → M S B) :
  settles_in R c → (∀ a, settles_in R (k a)) → settles_in R (x <- c ;; k x).
Proof.
  intros Hc Hk s. unfold bind. destruct (Hc s) as [Hp Hr].
  destruct (c s) as [[a|e|] s']; simpl in *; try done.
  destruct (Hk a s') as [Hp' Hr']. split; [done | by eapply R_trans].
Qed.

Lemma settles_getitem (v : json) (k : string) : settles_in R (getitem v k).
Proof.
  unfold getitem. destruct v; try apply settles_raise.
  destruct (fields !! k); [apply settles_ret | apply settles_raise].
Qed.

Lemma settles_dict_get (v : json) (k : string) (dflt : json) :
  settles_in R (dict_get v k dflt).
Proof. unfold dict_get. destruct v; first [apply settles_ret | apply settles_raise]. Qed.

Lemma settles_fixed2 (v : json) : settles_in R (fixed2 v).
Proof.
  unfold fixed2. destruct v; try case_match;
    first [apply settles_ret | apply settles_raise].
Qed.

End SettlesIn.

Lemma grows_by_refl (φ : event → Prop) (w : world) : grows_by φ w w.
Proof. exists []. by rewrite app_nil_r. Qed.

Lemma grows_by_trans (φ : event → Prop) (w1 w2 w3 : world) :
  grows_by φ w1 w2 → grows_by φ w2 w3 → grows_by φ w1 w3.
Proof.
  intros (o1 & H1 & Hq1) (o2 & H2 & Hq2). exists (o1 ++ o2).
  rewrite H2, H1, app_assoc. split; [done | by apply Forall_app].
Qed.

Lemma grows_by_record (φ : event → Prop) (ev : event) (w : world) :
  φ ev → grows_by φ w (record ev w).
Proof. intros H. exists [ev]. split; [done | by repeat constructor]. Qed.

Lemma grows_by_weaken (φ ψ : event → Prop) (w w' : world) :
  (∀ ev, φ ev → ψ ev) → grows_by φ w w' → grows_by ψ w w'.
Proof.
  intros Himp (out & Hlog & Hout). exists out. split; [done|].
  eapply Forall_impl; [exact Hout | exact Himp].
Qed.

Lemma prints_only_refl (w : world) : prints_only w w.
Proof. split; [done | apply grows_by_refl]. Qed.

Lemma prints_only_trans (w1 w2 w3 : world) :
  prints_only w1 w2 → prints_only w2 w3 → prints_only w1 w3.
Proof.
  intros [E1 G1] [E2 G2]. split; [congruence | by eapply grows_by_trans].
Qed.

Lemma print_prints_only (line : list fragment) : settles_in prints_only (print line).
Proof.
  intros w. split; [discriminate|]. split; [done | by apply grows_by_record].
Qed.

Lemma call_prints_only (f : callback) (job : json) : settles_in prints_only (call f job).
Proof.
  unfold call.
  destruct (f job); [apply settles_raise | apply settles_ret]; apply prints_only_refl.
Qed.

Ltac prints_only_steps :=
  repeat first
    [ apply print_prints_only
    | apply call_prints_only
    | apply (settles_ret prints_only prints_only_refl)
    | apply (settles_raise prints_only prints_only_refl)
    | apply (settles_getitem prints_only prints_only_refl)
    | apply (settles_fixed2 prints_only prints_only_refl)
    | apply (settles_bind prints_only prints_only_trans); [| intros ?]
    | match goal with |- settles_in _ (if ?b then _ else _) => destruct b end
    | match goal with |- settles_in _ (match ?x with _ => _ end) => destruct x end ].

Lemma display_progress_prints_only (job : json) :
  settles_in prints_only (display_progress job).
Proof. unfold display_progress. prints_only_steps. Qed.

Lemma printed_is_quiet (lines : list event) :
  Forall is_printed lines → requests lines = [] ∧ sleeps lines = [].
Proof.
  induction 1 as [|ev lines Hev _ [IH1 IH2]]; [done|].
  destruct ev; done.
Qed.

(** What a settled, printing-only step leaves: the same script, some more
    console lines. *)
Lemma prints_only_world (w w' : world) :
  prints_only w w' →
  ∃ lines, Forall is_printed lines ∧ w' = {| script := script w; log := log w ++ lines |}.
Proof.
  intros [Hs (lines & Hl & Hp)]. exists lines. split; [done|].
  destruct w'. simpl in *. by subst.
Qed.

(** One turn of the polling loop on any reply: it raises, or returns a job,
    or sleeps and goes on; the reply is taken and only console lines are
    added besides the request. *)
Lemma monitor_iteration_cases (fuel : nat) (c : self) (job_id : string) (interval : Z)
    (cb : option callback) (w : world) (a : reply) (rest : list reply) :
  script w = a :: rest →
  ∃ lines, Forall is_printed lines ∧
    let w1 := {| script := rest;
                 log := log w ++ Http (poll_request c job_id) (Some a) :: lines |} in
    (∃ e, monitor_loop (S fuel) c job_id interval cb w = (Raise e, w1))
    ∨ (∃ job, monitor_loop (S fuel) c job_id interval cb w
              = (Return job, record (Printed []) w1))
    ∨ monitor_loop (S fuel) c job_id interval cb w
      = monitor_loop fuel c job_id interval cb (record (Slept interval) w1).
Proof.
  intros Hs. rewrite monitor_loop_S, bind_run, perform_run. simpl reaches_network.
  cbv iota. rewrite Hs. fold (poll_request c job_id).
  destruct (reply_outcome a) as [status|e|] eqn:Ho.
  2: { exists []. split; [done|]. left. by exists e. }
  2: { by destruct (reply_outcome_settles a). }
  match goal with |- context [bind (getitem status "job") _ ?s] =>
    destruct (getitem_inv status "job" s)
      as [(fields & job & -> & Hjob & Hget) | (e & Hget & _)]
  end; rewrite bind_run, Hget.
  2: { exists []. split; [done|]. left. by exists e. }
  rewrite bind_run.
  match goal with |- context [match ?rep ?s with _ => _ end] =>
    assert (Hrep : settles_in prints_only rep)
      by (destruct cb; prints_only_steps; apply display_progress_prints_only);
    destruct (Hrep s) as [Hp Hq];
    destruct (rep s) as [r w2]
  end.
  simpl in Hp, Hq. apply prints_only_world in Hq as (lines & Hlines & ->). simpl.
  exists lines. split; [done|]. rewrite <- app_assoc. simpl.
  destruct r as [job'|e|]; [| left; by exists e | done].
  match goal with |- context [bind (getitem job' "status") _ ?s] =>
    destruct (getitem_inv job' "status" s)
      as [(jf & st & -> & Hst & Hget') | (e & Hget' & _)]
  end; rewrite bind_run, Hget'.
  2: { left. by exists e. }
  destruct (is_terminal st).
  - right. left. by eexists.
  - rewrite bind_run.
    destruct (sleepable interval) eqn:Hsleep.
    + right. right. by rewrite sleep_run.
    + left. match goal with |- context [sleep interval ?s] =>
        destruct (sleep_refused interval s Hsleep) as [e He]
      end.
      exists e. by rewrite He.
Qed.

Lemma printed_is_polling (c : self) (job_id : string) (interval : Z) (lines : list event) :
  Forall is_printed lines → Forall (polling_event c job_id interval) lines.
Proof. intros H. eapply Forall_impl; [exact H|]. by intros []. Qed.

Lemma polling_events_split (c : self) (job_id : string) (interval : Z) (out : list event) :
  Forall (polling_event c job_id interval) out →
  Forall (λ r, r = poll_request c job_id) (requests out)
  ∧ Forall (λ n, n = interval) (sleeps out).
Proof.
  induction 1 as [|ev out Hev _ [IH1 IH2]]; [done|].
  destruct ev; simpl in *; split; try done; by constructor.
Qed.

(** With fuel beyond the scripted replies, the loop adds only events of
    polling, one more request than sleeps. *)
Lemma monitor_loop_events (c : self) (job_id : string) (interval : Z) (cb : option callback)
    (fuel : nat) :
  ∀ w, (length (script w) < fuel)%nat →
    ∃ out,
      log (monitor_loop fuel c job_id interval cb w).2 = log w ++ out
      ∧ Forall (polling_event c job_id interval) out
      ∧ length (requests out) = S (length (sleeps out)).
Proof.
  induction fuel as [|fuel IH]; intros w Hfuel; [lia|].
  destruct (script w) as [|a rest] eqn:Hs.
  - exists [Http (poll_request c job_id) None].
    rewrite monitor_loop_S, bind_run, perform_run. simpl reaches_network. cbv iota.
    rewrite Hs. split; [done|]. split; [by repeat constructor | done].
  - destruct (monitor_iteration_cases fuel c job_id interval cb w a rest Hs)
      as (lines & Hlines & Hcases). cbv zeta in Hcases.
    destruct (printed_is_quiet lines Hlines) as [Hreq Hsl].
    pose proof (printed_is_polling c job_id interval lines Hlines) as Hpoll.
    destruct Hcases as [[e Hrun] | [[job Hrun] | Hrun]]; rewrite Hrun.
    + exists (Http (poll_request c job_id) (Some a) :: lines).
      split; [done|]. split; [by constructor|].
      change (Http ?r ?x :: lines) with ([Http r x] ++ lines).
      by rewrite requests_app, sleeps_app, Hreq, Hsl.
    + exists ([Http (poll_request c job_id) (Some a)] ++ lines ++ [Printed []]).
      split; [simpl; by rewrite <- app_assoc|].
      split; [apply Forall_app; split; [by repeat constructor|];
              apply Forall_app; split; [done | by repeat constructor]|].
      by rewrite !requests_app, !sleeps_app, Hreq, Hsl.
    + match goal with |- context [monitor_loop fuel c job_id interval cb ?w'] =>
        destruct (IH w') as (out & Hlog & Hout & Hcount)
      end.
      { simpl in *. lia. }
      exists ([Http (poll_request c job_id) (Some a)] ++ lines ++ [Slept interval] ++ out).
      split; [rewrite Hlog; simpl; by rewrite <- !app_assoc|].
      split; [apply Forall_app; split; [by repeat constructor|];
              apply Forall_app; split; [done|];
              apply Forall_app; split; [by repeat constructor | done]|].
      rewrite !requests_app, !sleeps_app, Hreq, Hsl. simpl. by rewrite Hcount.
Qed.

(** X5: whatever the replies and the callback, [monitor_job] sends nothing
    but status requests for the job it watches, sleeps nothing but the given
    interval, and sleeps only between two polls: it has always sent one
    request more than it has slept. *)
Theorem monitor_job_only_polls (c : self) (job_id : string) (interval : Z)
    (cb : option callback) (w : world) :
  let out := emitted (monitor_job c job_id interval cb) w in
  Forall (λ r, r = poll_request c job_id) (requests out)
  ∧ Forall (λ n, n = interval) (sleeps out)
  ∧ length (requests out) = S (length (sleeps out)).
Proof.
  destruct (monitor_loop_events c job_id interval cb (S (length (script w))) w)
    as (out & Hlog & Hout & Hcount); [lia|].
  cbv zeta. rewrite (emitted_app _ _ out) by exact Hlog.
  destruct (polling_events_split c job_id interval out Hout). done.
Qed.

Section Ending.

Variables (c : self) (job_id : string) (interval : Z) (cb : option callback).

(** The loop runs through a prefix of jobs in progress. *)
Lemma monitor_loop_through (replies : list reply) (jobs : list json) :
  Forall2 delivers replies jobs →
  Forall (λ j, in_progress j = true ∧ observed cb j) jobs →
  (jobs ≠ [] → sleepable interval = true) →
  ∀ (fuel : nat) (w : world) (rest : list reply),
    script w = replies ++ rest →
    ∃ out,
      monitor_loop (length jobs + fuel) c job_id interval cb w
      = monitor_loop fuel c job_id interval cb {| script := rest; log := log w ++ out |}
      ∧ requests out = replicate (length jobs) (poll_request c job_id)
      ∧ sleeps out = replicate (length jobs) interval.
Proof.
  induction 1 as [|a0 j0 replies jobs Ha0 _ IH];
    intros Hjobs Hsleep fuel w rest Hscript.
  - exists []. rewrite app_nil_r. simpl in *. destruct w. simpl in *. by subst.
  - apply Forall_cons in Hjobs as [[Hprog Hobs0] Hjobs].
    apply in_progress_status in Hprog as [Hst Hnot].
    destruct (monitor_iteration (length jobs + fuel) c job_id interval cb w a0
                (replies ++ rest) j0 Hscript Ha0 Hobs0 Hst)
      as (lines & Hreq & Hsl & Hrun).
    cbv zeta in Hrun. rewrite Hnot, bind_run, sleep_run in Hrun by by apply Hsleep.
    match type of Hrun with _ = monitor_loop _ _ _ _ _ ?w' =>
      destruct (IH Hjobs (λ _, Hsleep ltac:(done)) fuel w' rest eq_refl)
        as (out & Hout & Hreq' & Hsl')
    end.
    exists ([Http (poll_request c job_id) (Some a0)] ++ lines ++ [Slept interval] ++ out).
    split; [|split].
    + change (length (j0 :: jobs) + fuel)%nat with (S (length jobs + fuel)).
      rewrite Hrun, Hout. unfold record. simpl. by rewrite <- !app_assoc.
    + by rewrite !requests_app, Hreq, Hreq'.
    + by rewrite !sleeps_app, Hsl, Hsl'.
Qed.

(** After jobs in progress, a reply on which one turn ends with [r] ends
    [monitor_job] with [r]. *)
Lemma monitor_job_ends (w : world) (replies : list reply) (jobs : list json)
    (a : reply) (after : list reply) (r : outcome json) (lines : list event) :
  script w = replies ++ a :: after →
  Forall2 delivers replies jobs →
  Forall (λ j, in_progress j = true ∧ observed cb j) jobs →
  (jobs ≠ [] → sleepable interval = true) →
  (∀ fuel w0, script w0 = a :: after →
     monitor_loop (S fuel) c job_id interval cb w0
     = (r, {| script := after;
              log := log w0 ++ Http (poll_request c job_id) (Some a) :: lines |})) →
  requests lines = [] → sleeps lines = [] →
  (monitor_job c job_id interval cb w).1 = r
  ∧ script (monitor_job c job_id interval cb w).2 = after
  ∧ requests (emitted (monitor_job c job_id interval cb) w)
    = replicate (S (length jobs)) (poll_request c job_id)
  ∧ sleeps (emitted (monitor_job c job_id interval cb) w)
    = replicate (length jobs) interval.
Proof.
  intros Hscript Hdel Hjobs Hsleep Hlast Hreq Hsl.
  destruct (monitor_loop_through replies jobs Hdel Hjobs Hsleep (S (S (length after))) w
              (a :: after) Hscript) as (out & Hrun & Hreq' & Hsl').
  rewrite Hlast in Hrun by done.
  assert (Hfuel : S (length (script w)) = (length jobs + S (S (length after)))%nat).
  { rewrite Hscript, length_app, <- (Forall2_length _ _ _ Hdel). simpl. lia. }
  assert (Hjob : monitor_job c job_id interval cb w
                 = (r, {| script := after;
                          log := log w ++ out ++ Http (poll_request c job_id) (Some a)
                                   :: lines |})).
  { unfold monitor_job. rewrite Hfuel, Hrun. simpl. by rewrite <- app_assoc. }
  rewrite (emitted_app _ _ (out ++ Http (poll_request c job_id) (Some a) :: lines))
    by (by rewrite Hjob).
  rewrite Hjob. split; [done|]. split; [done|].
  change (Http ?r ?x :: lines) with ([Http r x] ++ lines).
  rewrite !requests_app, !sleeps_app, Hreq, Hsl, Hreq', Hsl', !app_nil_r.
  split; [|done].
  change (requests [Http ?r ?x]) with [r]. by rewrite replicate_S_end.
Qed.

End Ending.

Lemma report_run_uniform (cb : option callback) (job : json) :
  observed cb job →
  ∃ lines, requests lines = [] ∧ sleeps lines = [] ∧
    ∀ w, (match cb with
          | Some f => call f job
          | None => display_progress job ;; ret job
          end) w = (Return job, {| script := script w; log := log w ++ lines |}).
Proof.
  destruct cb as [f|]; simpl; intros H.
  - exists []. repeat split; try done. intros w. unfold call.
    rewrite H, app_nil_r. by destruct w.
  - unfold has_progress in H.
    destruct job as [| | | | | |fields]; try done.
    destruct (fields !! "progress") as [[| | | | | |progress]|] eqn:Hp; try done.
    destruct (progress !! "size") as [[| | | | | |size]|] eqn:Hs; try done.
    destruct (size !! "completedReadable") as [x|] eqn:Hx; try done.
    destruct (size !! "totalReadable") as [y|] eqn:Hy; try done.
    destruct (size !! "percentage") as [z|] eqn:Hz; try done.
    eexists [Printed _]. repeat split; try done. intros w.
    unfold display_progress, getitem, bind. rewrite Hp. simpl. rewrite Hs. simpl.
    rewrite Hx, Hy, Hz. simpl. reflexivity.
Qed.

Section LastTurn.

Variables (c : self) (job_id : string) (interval : Z) (cb : option callback).
Variables (fuel : nat) (w : world) (a : reply) (after : list reply).
Hypothesis Hscript : script w = a :: after.

Lemma turn_poll_fails (e : exn) :
  reply_outcome a = Raise e →
  monitor_loop (S fuel) c job_id interval cb w = (Raise e, (after_poll c job_id w a after)).
Proof.
  intros Ho. rewrite monitor_loop_S, bind_run, perform_run. simpl reaches_network.
  cbv iota. by rewrite Hscript, Ho.
Qed.

Lemma turn_no_job (v : json) (e : exn) :
  reply_outcome a = Return v →
  getitem v "job" (after_poll c job_id w a after) = (Raise e, (after_poll c job_id w a after)) →
  monitor_loop (S fuel) c job_id interval cb w = (Raise e, (after_poll c job_id w a after)).
Proof.
  intros Ho Hget. rewrite monitor_loop_S, bind_run, perform_run. simpl reaches_network.
  cbv iota. rewrite Hscript, Ho, bind_run. fold (poll_request c job_id). fold (after_poll c job_id w a after).
  by rewrite Hget.
Qed.

Lemma turn_report_fails (job : json) (e : exn) :
  delivers a job →
  (match cb with
   | Some f => call f job
   | None => display_progress job ;; ret job
   end) (after_poll c job_id w a after) = (Raise e, (after_poll c job_id w a after)) →
  monitor_loop (S fuel) c job_id interval cb w = (Raise e, (after_poll c job_id w a after)).
Proof.
  intros (fields & Ho & Hjob) Hrep.
  rewrite monitor_loop_S, bind_run, perform_run. simpl reaches_network.
  cbv iota. rewrite Hscript, Ho, bind_run, (getitem_run _ _ _ _ Hjob), bind_run.
  fold (poll_request c job_id). fold (after_poll c job_id w a after). by rewrite Hrep.
Qed.

End LastTurn.

(** X6: a poll that fails ends the monitoring at once: after any number of
    polls that showed the job in progress (the interval being one that
    [time.sleep] accepts when there was such a poll), a reply that is a
    failure status, a refused connection or an undecodable body makes
    [monitor_job] raise that error; there is no further poll, no sleep after
    the failed one, and the later replies are left. *)
Theorem failed_poll_ends_monitoring (c : self) (job_id : string) (interval : Z)
    (cb : option callback) (w : world) (replies : list reply) (jobs : list json)
    (a : reply) (after : list reply) (e : exn) :
  script w = replies ++ a :: after →
  Forall2 delivers replies jobs →
  Forall (λ j, in_progress j = true ∧ observed cb j) jobs →
  (jobs ≠ [] → sleepable interval = true) →
  reply_outcome a = Raise e →
  monitoring_ends c job_id interval cb w (S (length jobs)) after (Raise e).
Proof.
  intros Hscript Hdel Hjobs Hsleep Ho.
  apply (monitor_job_ends c job_id interval cb w replies jobs a after (Raise e) []);
    try done.
  intros fuel w0 Hs. by apply turn_poll_fails.
Qed.

Lemma failed_poll_ends_monitoring_witness :
  monitoring_ends sample_client "job-1" 5 None
    {| script := [sample_poll "running"; sample_outage; sample_poll "completed"];
       log := [] |}
    2 [sample_poll "completed"] (Raise (HTTPError 503)).
Proof.
  apply (failed_poll_ends_monitoring sample_client "job-1" 5 None _
           [sample_poll "running"] [sample_job "running"] sample_outage
           [sample_poll "completed"] (HTTPError 503)).
  - reflexivity.
  - repeat constructor. apply sample_poll_delivers.
  - repeat constructor.
  - reflexivity.
  - reflexivity.
Defined.

(** X7: the progress report comes before the status test, so a job that
    cannot be reported is not returned even when it is finished: without a
    callback a job dictionary that has no [progress] makes [monitor_job] raise
    [KeyError], and an exception of the callback comes out of [monitor_job]
    as it is.  (The jobs seen before it were in progress and reported, with
    an interval that [time.sleep] accepts when there was one.) *)
Theorem unreportable_job_ends_monitoring (c : self) (job_id : string) (interval : Z)
    (cb : option callback) (w : world) (replies : list reply) (jobs : list json)
    (a : reply) (after : list reply) (job : json) :
  script w = replies ++ a :: after →
  Forall2 delivers replies jobs →
  Forall (λ j, in_progress j = true ∧ observed cb j) jobs →
  (jobs ≠ [] → sleepable interval = true) →
  delivers a job →
  (cb = None →
   (∀ fields, job = JObj fields → fields !! "progress" = None) →
   ∃ e, monitoring_ends c job_id interval cb w (S (length jobs)) after (Raise e)
        ∧ (∀ fields, job = JObj fields → e = KeyError "progress"))
  ∧ (∀ f e, cb = Some f → f job = inl e →
       monitoring_ends c job_id interval cb w (S (length jobs)) after (Raise e)).
Proof.
  intros Hscript Hdel Hjobs Hsleep Ha. split.
  - intros -> Hnone.
    destruct (getitem_inv job "progress"
                (S := world) {| script := after; log := [] |})
      as [(fields & x & -> & Hx & _) | (e & He & _)].
    { by rewrite (Hnone fields eq_refl) in Hx. }
    assert (Hget : ∀ w0 : world, getitem job "progress" w0 = (Raise e, w0)).
    { intros w0. unfold getitem in *. destruct job; try by injection He as <-.
      destruct (fields !! "progress"); [done | by injection He as <-]. }
    exists e. split.
    + apply (monitor_job_ends c job_id interval None w replies jobs a after (Raise e) []);
        try done.
      intros fuel w0 Hs. apply (turn_report_fails _ _ _ _ _ _ _ _ Hs job e Ha).
      unfold display_progress. by rewrite !bind_run, Hget.
    + intros fields ->. specialize (Hget {| script := []; log := [] |}).
      unfold getitem in Hget. rewrite (Hnone fields eq_refl) in Hget.
      by injection Hget as <-.
  - intros f e -> Hf.
    apply (monitor_job_ends c job_id interval (Some f) w replies jobs a after (Raise e) []);
      try done.
    intros fuel w0 Hs. apply (turn_report_fails _ _ _ _ _ _ _ _ Hs job e Ha).
    unfold call. by rewrite Hf.
Qed.

Lemma unreportable_job_ends_monitoring_witness :
  ∃ e, monitoring_ends sample_client "job-1" 5 None
         {| script := [sample_bare_poll]; log := [] |} 1 [] (Raise e)
       ∧ (∀ fields, sample_bare_job = JObj fields → e = KeyError "progress").
Proof.
  apply (unreportable_job_ends_monitoring sample_client "job-1" 5 None
           {| script := [sample_bare_poll]; log := [] |} [] [] sample_bare_poll []
           sample_bare_job).
  - reflexivity.
  - constructor.
  - constructor.
  - done.
  - eexists. split; [reflexivity|]. by simplify_map_eq.
  - reflexivity.
  - intros fields [= <-]. by simplify_map_eq.
Defined.

(** X8: a poll answered with a success status but without a usable job ends
    the monitoring with an error: a body that has no [job] raises [KeyError]
    for [job], and a job dictionary that has no [status] raises [KeyError]
    for [status] after it was reported.  (The jobs seen before it were in
    progress and reported, with an interval that [time.sleep] accepts when
    there was one.) *)
Theorem malformed_poll_reply_ends_monitoring (c : self) (job_id : string) (interval : Z)
    (cb : option callback) (w : world) (replies : list reply) (jobs : list json)
    (a : reply) (after : list reply) :
  script w = replies ++ a :: after →
  Forall2 delivers replies jobs →
  Forall (λ j, in_progress j = true ∧ observed cb j) jobs →
  (jobs ≠ [] → sleepable interval = true) →
  (∀ fields, reply_outcome a = Return (JObj fields) → fields !! "job" = None →
     monitoring_ends c job_id interval cb w (S (length jobs)) after
       (Raise (KeyError "job")))
  ∧ (∀ fields, delivers a (JObj fields) → observed cb (JObj fields) →
       fields !! "status" = None →
       monitoring_ends c job_id interval cb w (S (length jobs)) after
         (Raise (KeyError "status"))).
Proof.
  intros Hscript Hdel Hjobs Hsleep. split.
  - intros fields Ho Hnone.
    apply (monitor_job_ends c job_id interval cb w replies jobs a after _ []); try done.
    intros fuel w0 Hs. apply (turn_no_job _ _ _ _ _ _ _ _ Hs (JObj fields)); [done|].
    unfold getitem. by rewrite Hnone.
  - intros fields (body & Ho & Hjob) Hobs Hnone.
    destruct (report_run_uniform cb (JObj fields) Hobs) as (lines & Hreq & Hsl & Hrep).
    apply (monitor_job_ends c job_id interval cb w replies jobs a after _ lines);
      try done.
    intros fuel w0 Hs.
    rewrite monitor_loop_S, bind_run, perform_run. simpl reaches_network. cbv iota.
    rewrite Hs, Ho, bind_run, (getitem_run _ _ _ _ Hjob), bind_run, Hrep, bind_run.
    unfold getitem. rewrite Hnone. simpl. by rewrite <- app_assoc.
Qed.

Lemma malformed_poll_reply_ends_monitoring_witness :
  monitoring_ends sample_client "job-1" 5 None
    {| script := [sample_poll "running"; sample_no_job]; log := [] |}
    2 [] (Raise (KeyError "job")).
Proof.
  apply (malformed_poll_reply_ends_monitoring sample_client "job-1" 5 None _
           [sample_poll "running"] [sample_job "running"] sample_no_job [])
    with (fields := <["success" := JBool false]> ∅).
  - reflexivity.
  - repeat constructor. apply sample_poll_delivers.
  - repeat constructor.
  - reflexivity.
  - reflexivity.
  - by simplify_map_eq.
Defined.

(** ** Further properties of batch submission *)

Lemma grows_by_beside_refl {L} (φ : event → Prop) (s : world * L) : grows_by_beside φ s s.
Proof. apply grows_by_refl. Qed.

Lemma grows_by_beside_trans {L} (φ : event → Prop) (s1 s2 s3 : world * L) :
  grows_by_beside φ s1 s2 → grows_by_beside φ s2 s3 → grows_by_beside φ s1 s3.
Proof. apply grows_by_trans. Qed.

Lemma in_world_grows_by {L A} (φ : event → Prop) (c : M world A) :
  moves (grows_by φ) c → moves (@grows_by_beside L φ) (in_world c).
Proof. intros Hc [w l]. rewrite in_world_run. apply Hc. Qed.

Lemma append_grows_by {A} (φ : event → Prop) (v : A) :
  moves (grows_by_beside φ) (append v).
Proof. intros [w l]. apply grows_by_refl. Qed.

Lemma print_grows_by (φ : event → Prop) (line : list fragment) :
  φ (Printed line) → moves (grows_by φ) (print line).
Proof. intros H w. by apply grows_by_record. Qed.

Lemma perform_grows_by (φ : event → Prop) (c : self) (op : operation) :
  (∀ a, φ (Http (request_for c op) a)) → moves (grows_by φ) (perform c op).
Proof.
  intros H w. rewrite perform_run.
  destruct (reaches_network op); [|apply grows_by_refl].
  destruct (script w); simpl; eexists [_];
    (split; [reflexivity | repeat constructor; apply H]).
Qed.

Lemma submit_unmonitored_events (py_repr : json → string) (c : self) (d : string) :
  moves (grows_by_beside (submission_event c d)) (submit py_repr c false d).
Proof.
  rewrite submit_eq. unfold after_created.
  repeat first
    [ apply in_world_grows_by;
        first [ by apply print_grows_by
              | apply perform_grows_by; by intros ]
    | apply append_grows_by
    | apply (moves_ret _ (grows_by_beside_refl _))
    | apply (moves_getitem _ (grows_by_beside_refl _))
    | apply (moves_try _ (grows_by_beside_trans _)); [| intros ?]
    | apply (moves_bind _ (grows_by_beside_trans _)); [| intros ?] ].
Qed.

Lemma submission_events_requests (c : self) (d : string) (out : list event) :
  Forall (submission_event c d) out →
  requests out = replicate (length (omap submitted out)) (creation_request c d)
  ∧ sleeps out = [].
Proof.
  induction 1 as [|ev out Hev _ [IH1 IH2]]; [done|].
  destruct ev as [r a| |]; simpl in Hev; [subst r | | done].
  - rewrite (omap_cons_run submitted), creation_submits. simpl.
    by rewrite <- IH1, <- IH2.
  - by rewrite (omap_cons_run submitted).
Qed.

(** One unmonitored turn on a reply: it ends, it took that reply and sent
    the creation request and nothing else. *)
Lemma submit_unmonitored (py_repr : json → string) (c : self) (d : string) (w : world)
    (l : list json) (a : reply) (rest : list reply) :
  script w = a :: rest →
  ∃ out l',
    submit py_repr c false d (w, l)
    = (Return tt, ({| script := rest; log := log w ++ out |}, l'))
    ∧ requests out = [creation_request c d]
    ∧ sleeps out = [].
Proof.
  intros Hs.
  destruct (submit_run py_repr c false d w l)
    as (out & Hlog & _ & _ & Hsub & _ & _ & Hq).
  destruct (submit_unmonitored_events py_repr c d (w, l)) as (out' & Hlog' & Hev).
  destruct (Hq eq_refl) as [Hr Hscr]; [by rewrite Hs|].
  destruct (submit py_repr c false d (w, l)) as [r [w' l']]. simpl in *.
  assert (out' = out) as -> by (apply (app_inv_head (log w)); congruence).
  destruct (submission_events_requests c d out Hev) as [Hreq Hsl].
  rewrite Hsub in Hreq. exists out, l'. split; [|done].
  destruct w'. simpl in *. rewrite Hs in Hscr. by subst.
Qed.

Lemma submit_all_unmonitored (py_repr : json → string) (c : self)
    (directories : list string) :
  ∀ (w : world) (l : list json),
    (length directories ≤ length (script w))%nat →
    ∃ out l',
      submit_all py_repr c false directories (w, l)
      = (Return tt,
         ({| script := drop (length directories) (script w); log := log w ++ out |}, l'))
      ∧ requests out = creation_request c <$> directories
      ∧ sleeps out = [].
Proof.
  induction directories as [|d ds IH]; intros w l Hlen.
  - exists [], l. rewrite app_nil_r. simpl. by destruct w.
  - destruct (script w) as [|a rest] eqn:Hs; [simpl in Hlen; lia|].
    destruct (submit_unmonitored py_repr c d w l a rest Hs)
      as (o1 & l1 & Hrun1 & Hreq1 & Hsl1).
    match type of Hrun1 with _ = (_, (?w1, _)) =>
      destruct (IH w1 l1) as (o2 & l2 & Hrun2 & Hreq2 & Hsl2)
    end.
    { simpl in *. lia. }
    exists (o1 ++ o2), l2. simpl submit_all. rewrite bind_run, Hrun1, Hrun2.
    simpl. rewrite <- app_assoc, requests_app, sleeps_app, Hreq1, Hreq2, Hsl1, Hsl2.
    done.
Qed.

(** X9: without monitoring, a batch is one exchange per directory and nothing
    else: it sends the creation requests of the directories in order, takes
    exactly one reply for each whatever that reply is, leaves the later
    replies untouched, polls nothing and never sleeps. *)
Theorem unmonitored_batch_exchanges (py_repr : json → string) (c : self)
    (directories : list string) (w : world) :
  (length directories ≤ length (script w))%nat →
  let run := batch_cache_directories py_repr c directories false in
  script (run w).2 = drop (length directories) (script w)
  ∧ requests (emitted run w) = creation_request c <$> directories
  ∧ sleeps (emitted run w) = [].
Proof.
  intros Hlen run.
  destruct (submit_all_unmonitored py_repr c directories w [] Hlen)
    as (out & l' & Hrun & Hreq & Hsl).
  assert (Hbatch : run w =
            (Return l',
             {| script := drop (length directories) (script w); log := log w ++ out |})).
  { unfold run, batch_cache_directories. by rewrite Hrun. }
  rewrite (emitted_app _ _ out) by (by rewrite Hbatch).
  by rewrite Hbatch.
Qed.

Lemma unmonitored_batch_exchanges_witness :
  let w := {| script := [sample_outage; sample_created "job-2"; sample_poll "running"];
              log := [] |} in
  let run := batch_cache_directories (λ _, "") sample_client ["a"; "b"] false in
  script (run w).2 = [sample_poll "running"]
  ∧ requests (emitted run w) = [creation_request sample_client "a";
                                creation_request sample_client "b"]
  ∧ sleeps (emitted run w) = [].
Proof.
  intros w.
  apply (unmonitored_batch_exchanges (λ _, "") sample_client ["a"; "b"] w).
  simpl. lia.
Defined.

Lemma monitor_job_grows_by (c : self) (job_id : string) (interval : Z)
    (cb : option callback) :
  moves (grows_by (polling_event c job_id interval)) (monitor_job c job_id interval cb).
Proof.
  intros w.
  destruct (monitor_loop_events c job_id interval cb (S (length (script w))) w)
    as (out & Hlog & Hout & _); [lia|].
  by exists out.
Qed.

Lemma after_created_events (py_repr : json → string) (c : self) (monitor : bool)
    (result job_id : json) :
  moves (grows_by_beside (polling_event c (py_str py_repr job_id) 5))
    (after_created py_repr c monitor result job_id).
Proof.
  unfold after_created.
  repeat first
    [ apply in_world_grows_by;
        first [ by apply print_grows_by | apply monitor_job_grows_by ]
    | apply (moves_ret _ (grows_by_beside_refl _))
    | apply (moves_getitem _ (grows_by_beside_refl _))
    | apply (moves_bind _ (grows_by_beside_trans _)); [| intros ?]
    | match goal with |- moves _ (if ?b then _ else _) => destruct b end ].
Qed.

(** One turn of the batch loop, case by case on the reply to the creation
    request. *)
Lemma submit_waits (py_repr : json → string) (c : self) (monitor : bool)
    (d : string) (w : world) (l : list json) :
  script w = [] →
  submit py_repr c monitor d (w, l)
  = (Pending,
     ({| script := [];
         log := log w ++ [Printed [Lit "Submitting job for: "; Val (JStr d)];
                          Http (creation_request c d) None] |}, l)).
Proof.
  intros Hs. rewrite submit_eq. unfold try_except.
  rewrite bind_run, in_world_run. simpl fst. simpl snd. cbv iota.
  rewrite bind_run, in_world_run, perform_run. simpl reaches_network. cbv iota.
  change (script (record ?ev w)) with (script w). rewrite Hs. simpl fst. simpl snd.
  cbv iota. unfold record. simpl. by rewrite Hs, <- !app_assoc.
Qed.

Lemma submit_without_id (py_repr : json → string) (c : self) (monitor : bool)
    (d : string) (w : world) (l : list json) (a : reply) (rest : list reply)
    (result : json) :
  script w = a :: rest →
  reply_outcome a = Return result →
  (∀ fields, result = JObj fields → fields !! "jobId" = None) →
  ∃ e,
    submit py_repr c monitor d (w, l)
    = (Return tt,
       ({| script := rest;
           log := log w ++ [Printed [Lit "Submitting job for: "; Val (JStr d)];
                            Http (creation_request c d) (Some a);
                            Printed [Lit "  Error: "; Exc e]] |}, l)).
Proof.
  intros Hs Ho Hnone. rewrite submit_eq. unfold try_except.
  rewrite bind_run, in_world_run. simpl fst. simpl snd. cbv iota.
  rewrite bind_run, in_world_run, perform_run. simpl reaches_network. cbv iota.
  change (script (record ?ev w)) with (script w). rewrite Hs. simpl fst. simpl snd.
  rewrite Ho. cbv iota.
  match goal with |- context [bind (getitem result "jobId") _ ?s] =>
    destruct (getitem_inv result "jobId" s)
      as [(fields & job_id & -> & Hid & _) | (e & Hget & _)]
  end.
  { by rewrite (Hnone fields eq_refl) in Hid. }
  exists e. rewrite bind_run, Hget. cbv iota. rewrite in_world_run.
  unfold print, record. simpl. by rewrite <- !app_assoc.
Qed.

Lemma submit_with_id (py_repr : json → string) (c : self) (monitor : bool)
    (d : string) (w : world) (l : list json) (a : reply) (rest : list reply)
    (fields : gmap string json) (j : json) :
  script w = a :: rest →
  reply_outcome a = Return (JObj fields) →
  fields !! "jobId" = Some j →
  submit py_repr c monitor d (w, l)
  = try_except (after_created py_repr c monitor (JObj fields) j)
      (λ e, in_world (print [Lit "  Error: "; Exc e]))
      ({| script := rest;
          log := log w ++ [Printed [Lit "Submitting job for: "; Val (JStr d)];
                           Http (creation_request c d) (Some a)] |}, l ++ [j]).
Proof.
  intros Hs Ho Hid. rewrite submit_eq. unfold try_except.
  rewrite bind_run, in_world_run. simpl fst. simpl snd. cbv iota.
  rewrite bind_run, in_world_run, perform_run. simpl reaches_network. cbv iota.
  change (script (record ?ev w)) with (script w). rewrite Hs. simpl fst. simpl snd.
  rewrite Ho. cbv iota.
  rewrite bind_run, (getitem_run _ _ _ _ Hid). cbv iota.
  rewrite bind_run. simpl (append _ _). cbv iota.
  unfold record. simpl. by rewrite <- !app_assoc.
Qed.

Lemma batch_event_mono (py_repr : json → string) (c : self) (ds ds' : list string)
    (ids ids' : list json) (ev : event) :
  ds ⊆ ds' → ids ⊆ ids' →
  batch_event py_repr c ds ids ev → batch_event py_repr c ds' ids' ev.
Proof.
  intros Hds Hids. destruct ev as [r a| |]; simpl; try done.
  intros [(d & Hd & ->) | (j & Hj & ->)]; [left | right]; eexists; split; eauto.
Qed.

Lemma polling_is_batch_event (py_repr : json → string) (c : self) (ds : list string)
    (ids : list json) (j : json) (ev : event) :
  j ∈ ids →
  polling_event c (py_str py_repr j) 5 ev → batch_event py_repr c ds ids ev.
Proof.
  intros Hj. destruct ev as [r a| |]; simpl; try done.
  intros ->. right. by exists j.
Qed.

(** The events of one turn of the batch loop. *)
Lemma submit_events (py_repr : json → string) (c : self) (monitor : bool)
    (d : string) (w : world) (l : list json) :
  ∃ out,
    log (submit py_repr c monitor d (w, l)).2.1 = log w ++ out
    ∧ Forall (batch_event py_repr c [d] (omap created out)) out.
Proof.
  assert (Hcreate : ∀ ids a,
            batch_event py_repr c [d] ids (Http (creation_request c d) a)).
  { intros ids a. left. exists d. split; [set_solver | done]. }
  destruct (script w) as [|a rest] eqn:Hs.
  { rewrite (submit_waits _ _ _ _ _ _ Hs). eexists. split; [reflexivity|].
    constructor; [done|]. constructor; [apply Hcreate|]. repeat constructor. }
  destruct (reply_outcome a) as [result|e|] eqn:Ho.
  3: { by destruct (reply_outcome_settles a). }
  2: { rewrite (submit_reports_failure _ _ _ _ _ _ _ _ _ Hs Ho).
       eexists. split; [reflexivity|]. constructor; [done|]. constructor; [apply Hcreate|]. repeat constructor. }
  assert (Hid : (∃ fields j, result = JObj fields ∧ fields !! "jobId" = Some j)
                ∨ (∀ fields, result = JObj fields → fields !! "jobId" = None)).
  { destruct result as [| | | | | |fields]; try (by right).
    destruct (fields !! "jobId") as [j|] eqn:Hj; [left; eauto | right].
    by intros ? [= <-]. }
  destruct Hid as [(fields & j & -> & Hj) | Hnone].
  2: { destruct (submit_without_id py_repr c monitor d w l a rest result Hs Ho Hnone)
         as [e ->].
       eexists. split; [reflexivity|]. constructor; [done|]. constructor; [apply Hcreate|]. repeat constructor. }
  rewrite (submit_with_id _ _ _ _ _ _ _ _ _ _ Hs Ho Hj). unfold try_except.
  match goal with |- context [after_created ?p ?c ?m ?r ?j ?s] =>
    destruct (after_created_events p c m r j s) as (o2 & Hlog2 & Hev2);
    destruct (after_created p c m r j s) as [r2 [w2 l2]]
  end.
  simpl in Hlog2.
  set (line := Printed [Lit "Submitting job for: "; Val (JStr d)]) in *.
  assert (Hin : ∀ tailp,
            j ∈ omap created (line :: Http (creation_request c d) (Some a) :: o2 ++ tailp)).
  { intros tailp. unfold line. rewrite !omap_cons_run.
    rewrite (created_by_reply (creation_request c d) a _ eq_refl Ho), Hj. set_solver. }
  assert (Hall : ∀ tailp, Forall is_printed tailp →
            Forall (batch_event py_repr c [d]
                      (omap created
                         (line :: Http (creation_request c d) (Some a) :: o2 ++ tailp)))
              (line :: Http (creation_request c d) (Some a) :: o2 ++ tailp)).
  { intros tailp Htail. constructor; [done|]. constructor; [apply Hcreate|].
    apply Forall_app. split.
    - eapply Forall_impl; [exact Hev2|]. intros ev. by apply polling_is_batch_event.
    - eapply Forall_impl; [exact Htail|]. by intros []. }
  destruct r2 as [[]|e|]; [| rewrite in_world_run |].
  - exists (line :: Http (creation_request c d) (Some a) :: o2 ++ []).
    split; [|by apply Hall]. simpl. by rewrite Hlog2, app_nil_r, <- !app_assoc.
  - exists (line :: Http (creation_request c d) (Some a)
              :: o2 ++ [Printed [Lit "  Error: "; Exc e]]).
    split; [|apply Hall; by repeat constructor].
    simpl. by rewrite Hlog2, <- !app_assoc.
  - exists (line :: Http (creation_request c d) (Some a) :: o2 ++ []).
    split; [|by apply Hall]. simpl. by rewrite Hlog2, app_nil_r, <- !app_assoc.
Qed.

Lemma submit_all_events (py_repr : json → string) (c : self) (monitor : bool)
    (directories : list string) :
  ∀ (w : world) (l : list json),
    ∃ out,
      log (submit_all py_repr c monitor directories (w, l)).2.1 = log w ++ out
      ∧ Forall (batch_event py_repr c directories (omap created out)) out.
Proof.
  induction directories as [|d ds IH]; intros w l.
  - exists []. by rewrite app_nil_r.
  - simpl submit_all. rewrite bind_run.
    destruct (submit_events py_repr c monitor d w l) as (o1 & Hlog1 & Hev1).
    destruct (submit py_repr c monitor d (w, l)) as [r1 [w1 l1]]. simpl in Hlog1.
    assert (Hstop : Forall (batch_event py_repr c (d :: ds) (omap created o1)) o1).
    { eapply Forall_impl; [exact Hev1|]. intros ev.
      apply batch_event_mono; [|done].
      intros x Hx. apply list_elem_of_singleton in Hx as ->. by left. }
    destruct r1 as [[]|e|]; [| by exists o1..].
    destruct (IH w1 l1) as (o2 & Hlog2 & Hev2).
    exists (o1 ++ o2). split; [by rewrite Hlog2, Hlog1, app_assoc|].
    rewrite omap_app. apply Forall_app. split.
    + eapply Forall_impl; [exact Hev1|]. intros ev.
      apply batch_event_mono.
      * intros x Hx. apply list_elem_of_singleton in Hx as ->. by left.
      * intros x Hx. apply elem_of_app. by left.
    + eapply Forall_impl; [exact Hev2|]. intros ev.
      apply batch_event_mono.
      * intros x Hx. by right.
      * intros x Hx. apply elem_of_app. by right.
Qed.

(** X10: whatever the replies, a batch does nothing to the service but create
    jobs for the directories it was given and poll jobs it has itself
    created, under the id the creation returned; it sleeps five seconds at a
    time and sends nothing else (it never cancels a job, never lists jobs). *)
Theorem batch_polls_only_created_jobs (py_repr : json → string) (c : self)
    (directories : list string) (monitor : bool) (w : world) :
  let out := emitted (batch_cache_directories py_repr c directories monitor) w in
  Forall (batch_event py_repr c directories (omap created out)) out.
Proof.
  destruct (submit_all_events py_repr c monitor directories w []) as (out & Hlog & Hev).
  cbv zeta. rewrite (emitted_app _ _ out); [done|].
  unfold batch_cache_directories.
  destruct (submit_all py_repr c monitor directories (w, [])) as [[[]|e|] [w' ids]]; done.
Qed.

(** ** The status report *)

Lemma bind_getitem_ok {S B} (v : json) (k : string) (K : json → M S B) (s : S) :
  has_key v k = true → (x <- getitem v k ;; K x) s = K (item v k) s.
Proof.
  unfold has_key, item, bind, getitem. destruct v; try done.
  by destruct (fields !! k).
Qed.

Lemma bind_getitem_fail {S B} (v : json) (k : string) (K : json → M S B) (s : S) :
  has_key v k = false → ∃ e, (x <- getitem v k ;; K x) s = (Raise e, s).
Proof.
  unfold has_key, bind, getitem. destruct v; try (by eexists).
  destruct (fields !! k); [done | by eexists].
Qed.

Lemma bind_dict_get {S B} (fields : gmap string json) (k : string) (d : json)
    (K : json → M S B) (s : S) :
  (x <- dict_get (JObj fields) k d ;; K x) s = K (default d (fields !! k)) s.
Proof. reflexivity. Qed.

Lemma truthy_item_has_key (v : json) (k : string) :
  truthy (item v k) = true → has_key v k = true.
Proof.
  unfold item, has_key. destruct v; try done. by destruct (fields !! k).
Qed.

Ltac lookup :=
  match goal with
  | |- context [bind (getitem ?v ?k) ?K ?s] =>
      first
        [ rewrite (bind_getitem_ok v k K s) by assumption
        | let H := fresh "Hkey" in
          destruct (has_key v k) eqn:H;
          [ rewrite (bind_getitem_ok v k K s) by assumption
          | try (by apply bind_getitem_fail) ] ]
  end.

Lemma format_job_status_fails {S} (py_repr : json → string) (job : json) (s : S) :
  printable_job job = false → ∃ e, format_job_status py_repr job s = (Raise e, s).
Proof.
  intros Hno. unfold format_job_status.
  destruct job as [| | | | | |fields]; try (by eexists).
  do 15 lookup.
  rewrite bind_dict_get.
  change (default JNull (fields !! "throughput")) with (item (JObj fields) "throughput").
  unfold printable_job in Hno.
  repeat match goal with
         | H : has_key _ _ = true |- _ => rewrite H in Hno; clear H
         end.
  destruct (truthy (item (JObj fields) "throughput")) eqn:Ht; [|done].
  simpl in Hno. rewrite bind_run.
  rewrite (bind_getitem_ok _ _ _ _ (truthy_item_has_key _ _ Ht)).
  destruct (bind_getitem_fail (item (JObj fields) "throughput") "readable"
              (λ readable, ret (job_lines py_repr (JObj fields))) s Hno) as [e He].
  exists e. unfold bind in *.
  destruct (getitem (item (JObj fields) "throughput") "readable" s) as [[x|e2|] s2];
    by simplify_eq.
Qed.

Lemma format_job_status_returns {S} (py_repr : json → string) (job : json) (s : S) :
  printable_job job = true →
  format_job_status py_repr job s
  = (Return (String.concat newline (job_lines py_repr job)), s).
Proof.
  intros Hyes. unfold printable_job in Hyes.
  repeat (apply andb_true_iff in Hyes as [Hyes ?]).
  unfold format_job_status.
  destruct job as [| | | | | |fields]; try done.
  do 15 lookup.
  rewrite bind_dict_get.
  change (default JNull (fields !! "throughput")) with (item (JObj fields) "throughput").
  unfold job_lines.
  destruct (truthy (item (JObj fields) "throughput")) eqn:Ht; [|reflexivity].
  rewrite bind_run.
  rewrite (bind_getitem_ok _ _ _ _ (truthy_item_has_key _ _ Ht)).
  match goal with H : _ || _ = true |- _ => simpl in H end.
  by rewrite bind_getitem_ok.
Qed.

(** X11: [format_job_status] touches nothing and succeeds exactly on the job
    dictionaries that have all it reads: [progress] with [files] (completed,
    total, percentage) and [size] (completedReadable, totalReadable,
    percentage), [id], [status], and a [throughput] that is either falsy
    (absent, [None], empty) or a dictionary with [readable]; on every other
    value it raises. *)
Theorem format_job_status_needs_every_field {S} (py_repr : json → string) (job : json)
    (s : S) :
  (format_job_status py_repr job s).2 = s
  ∧ ((∃ text, (format_job_status py_repr job s).1 = Return text)
     ↔ printable_job job = true)
  ∧ ((∃ e, (format_job_status py_repr job s).1 = Raise e)
     ↔ printable_job job = false).
Proof.
  destruct (printable_job job) eqn:Hp.
  - rewrite (format_job_status_returns py_repr job s Hp). simpl.
    split; [done|]. split; split; try done; [by eexists | by intros [e ?]].
  - destruct (format_job_status_fails py_repr job s Hp) as [e ->]. simpl.
    split; [done|]. split; split; try done; [by intros [t ?] | by eexists].
Qed.

(** X12: on such a job the report is the lines for id, status, files and size
    joined by newlines, followed by a speed line exactly when [throughput] is
    truthy: four lines or five. *)
Theorem format_job_status_lines {S} (py_repr : json → string) (job : json) (s : S) :
  printable_job job = true →
  (format_job_status py_repr job s).1
  = Return (String.concat newline (job_lines py_repr job))
  ∧ length (job_lines py_repr job)
    = (if truthy (item job "throughput") then 5 else 4)%nat
  ∧ head (job_lines py_repr job) = Some ("Job ID: " +:+ shown py_repr (item job "id")).
Proof.
  intros Hp. rewrite (format_job_status_returns py_repr job s Hp).
  split; [done|]. unfold job_lines.
  by destruct (truthy (item job "throughput")).
Qed.

Lemma format_job_status_lines_witness :
  (format_job_status (λ _, "?") sample_full_job tt).1
  = Return (String.concat newline (job_lines (λ _, "?") sample_full_job))
  ∧ length (job_lines (λ _, "?") sample_full_job) = 5%nat
  ∧ head (job_lines (λ _, "?") sample_full_job) = Some "Job ID: job-7".
Proof.
  apply (format_job_status_lines (λ _, "?") sample_full_job tt).
  vm_compute. reflexivity.
Defined.

(** ** Further properties of the streaming listener *)

Set Warnings "-clear-no-such-hyp".

Lemma kept_refl (s : MM.self) : kept s s.
Proof. unfold kept. set_solver. Qed.

Lemma kept_trans (s1 s2 s3 : MM.self) : kept s1 s2 → kept s2 s3 → kept s1 s3.
Proof.
  intros (U1 & C1 & D1 & E1) (U2 & C2 & D2 & E2). unfold kept.
  split; [congruence|]. split; [by etrans|]. set_solver.
Qed.

Lemma print_kept (line : list fragment) : respects kept (MM.print line).
Proof.
  intros s. split; [discriminate|]. unfold kept. simpl.
  split; [done|]. split; [by apply prefix_app_r | set_solver].
Qed.

Lemma get_metric_kept (k : string) : respects kept (MM.get_metric k).
Proof.
  intros s. unfold MM.get_metric.
  destruct (MM.metrics s !! k); (split; [done | apply kept_refl]).
Qed.

Lemma set_metric_kept (k : string) (v : json) :
  k ∈ metric_keys → respects kept (MM.set_metric k v).
Proof.
  intros Hk s. split; [discriminate|]. unfold kept. simpl.
  split; [done|]. split; [done|]. rewrite dom_insert_L. set_solver.
Qed.

Ltac kept_steps :=
  repeat first
    [ apply print_kept
    | apply get_metric_kept
    | apply set_metric_kept; by vm_compute
    | apply (respects_ret kept kept_refl)
    | apply (respects_raise kept kept_refl)
    | apply (respects_getitem kept kept_refl)
    | apply (respects_dict_get kept kept_refl)
    | apply (respects_fixed2 kept kept_refl)
    | apply (respects_try kept kept_trans); [| intros ?]
    | apply (respects_bind kept kept_trans); [| intros ?]
    | match goal with |- respects _ (if ?b then _ else _) => destruct b end
    | match goal with |- respects _ (match ?x with _ => _ end) => destruct x end ].

Lemma receive_kept (r : MM.received) : respects kept (MM.receive r).
Proof.
  unfold MM.receive, MM.wait_for_recv, MM.json_loads, MM.dispatch, MM._display_metrics.
  kept_steps.
Qed.

Lemma monitor_loop_kept (duration : option Z) (start_time : Q)
    (feed : list (Q * MM.received)) (s : MM.self) :
  kept s (MM.monitor_loop duration start_time feed s).2.
Proof.
  revert s. induction feed as [|[now r] feed IH]; intros s; [apply kept_refl|].
  rewrite monitor_loop_step. destruct (MM.expired duration start_time now).
  - apply kept_refl.
  - eapply kept_trans; [apply receive_kept | apply IH].
Qed.

Lemma connect_and_monitor_kept (duration : option Z) (start_time : Q)
    (connect : option exn) (feed : list (Q * MM.received)) (s : MM.self) :
  kept s (MM.connect_and_monitor duration start_time connect feed s).2.
Proof.
  destruct connect as [e|]; [apply kept_refl|].
  rewrite connect_and_monitor_run.
  eapply kept_trans; [apply print_kept | apply monitor_loop_kept].
Qed.

(** X13: however the monitoring goes (any frames, timeouts and failures, any
    duration, a failed connection), the monitor keeps its URL, only adds to
    what is on the console, and its [metrics] dictionary keeps exactly the
    two keys it was created with, so reading either of them never fails. *)
Theorem monitor_keeps_its_shape (url : string) (duration : option Z) (start_time : Q)
    (connect : option exn) (feed : list (Q * MM.received)) :
  let s := MM.__init__ url in
  let s' := (MM.connect_and_monitor duration start_time connect feed s).2 in
  MM.ws_url s' = url
  ∧ MM.console s `prefix_of` MM.console s'
  ∧ dom (MM.metrics s') = metric_keys
  ∧ is_Some (MM.metrics s' !! "lucidLink")
  ∧ is_Some (MM.metrics s' !! "s3Health").
Proof.
  intros s s'.
  destruct (connect_and_monitor_kept duration start_time connect feed s)
    as (Hurl & Hcon & Hsub & Hsup).
  fold s' in Hurl, Hcon, Hsub, Hsup.
  assert (Hdom : dom (MM.metrics s) = metric_keys).
  { unfold s, MM.__init__, metric_keys. simpl. rewrite !dom_insert_L. set_solver. }
  assert (Hdom' : dom (MM.metrics s') = metric_keys).
  { rewrite Hdom in Hsub, Hsup. apply set_eq. intros k. split; set_solver. }
  split; [done|]. split; [done|]. split; [done|].
  split; apply elem_of_dom; rewrite Hdom'; unfold metric_keys; set_solver.
Qed.

Lemma monitor_loop_app (duration : option Z) (start_time : Q)
    (before after : list (Q * MM.received)) (s : MM.self) :
  Forall (λ turn, MM.expired duration start_time turn.1 = false) before →
  MM.monitor_loop duration start_time (before ++ after) s
  = MM.monitor_loop duration start_time after
      (MM.monitor_loop duration start_time before s).2.
Proof.
  intros Hb. revert s. induction Hb as [|[now r] before Hnow _ IH]; intros s.
  - reflexivity.
  - simpl app. rewrite !monitor_loop_step. simpl in Hnow. rewrite Hnow. apply IH.
Qed.

Lemma not_expired_spec (n : Z) (start_time now : Q) :
  (now - start_time <= inject_Z n)%Q → MM.expired (Some n) start_time now = false.
Proof.
  intros Hle. apply not_true_iff_false. rewrite expired_spec.
  intros (n' & [= <-] & _ & Hlt). by apply Qlt_not_le in Hlt.
Qed.

Lemma Qlt_succ_le (n : Z) (q : Q) : (inject_Z n + 1 <= q)%Q → (inject_Z n < q)%Q.
Proof.
  intros H. apply Qlt_le_trans with (inject_Z n + 1)%Q; [|done].
  unfold Qlt. simpl. lia.
Qed.

(** X14: when the duration is over the loop ends at the very next check,
    before it waits for anything: with a non-zero [duration], at the first
    turn whose clock reading is a second or more past the deadline, the
    earlier readings being within the duration, the call returns, with the
    monitor as the earlier turns left it; the frame of that turn and every
    later one are never received.  (The second of margin and a duration below
    2^53 keep the comparison clear of the rounding of Python's double
    subtraction, which the exact differences here do not show.) *)
Theorem deadline_ends_listening (n : Z) (start_time now : Q) (r : MM.received)
    (before after : list (Q * MM.received)) (s : MM.self) :
  n ≠ 0 →
  Z.abs n < 2 ^ 53 →
  Forall (λ turn, (turn.1 - start_time <= inject_Z n)%Q) before →
  (inject_Z n + 1 <= now - start_time)%Q →
  MM.connect_and_monitor (Some n) start_time None (before ++ (now, r) :: after) s
  = (Return tt, (MM.connect_and_monitor (Some n) start_time None before s).2).
Proof.
  intros Hn _ Hbefore Hnow. rewrite !connect_and_monitor_run.
  rewrite monitor_loop_app.
  - rewrite monitor_loop_step.
    assert (MM.expired (Some n) start_time now = true) as ->; [|done].
    apply expired_spec. exists n. repeat split; [done|]. by apply Qlt_succ_le.
  - eapply Forall_impl; [exact Hbefore|]. intros turn. apply not_expired_spec.
Qed.

Lemma deadline_ends_listening_witness :
  let lost := MM.Message (Some (JObj (<["type" := JStr "s3-health"]> ∅))) in
  MM.connect_and_monitor (Some 30) 100 None
    [(110%Q, MM.Silence); (131%Q, lost); (132%Q, lost)] (MM.__init__ MM.default_ws_url)
  = (Return tt,
     (MM.connect_and_monitor (Some 30) 100 None [(110%Q, MM.Silence)]
        (MM.__init__ MM.default_ws_url)).2).
Proof.
  intros lost.
  apply (deadline_ends_listening 30 100 131 lost [(110%Q, MM.Silence)] [(132%Q, lost)]
           (MM.__init__ MM.default_ws_url)).
  - lia.
  - reflexivity.
  - repeat constructor. by vm_compute.
  - by vm_compute.
Defined.

Lemma receive_broken (e : exn) (s : MM.self) :
  e ≠ TimeoutError →
  MM.receive (MM.Broken e) s
  = (Return tt,
     {| MM.ws_url := MM.ws_url s; MM.metrics := MM.metrics s;
        MM.console := MM.console s ++ [error_line e] |}).
Proof. intros He. by destruct e. Qed.

Lemma monitor_loop_broken (duration : option Z) (start_time : Q) (e : exn)
    (times : list Q) :
  e ≠ TimeoutError →
  Forall (λ now, MM.expired duration start_time now = false) times →
  ∀ s,
    MM.monitor_loop duration start_time ((λ now, (now, MM.Broken e)) <$> times) s
    = (Pending,
       {| MM.ws_url := MM.ws_url s; MM.metrics := MM.metrics s;
          MM.console := MM.console s ++ replicate (length times) (error_line e) |}).
Proof.
  intros He. induction 1 as [|now times Hnow _ IH]; intros s.
  - simpl. rewrite app_nil_r. by destruct s.
  - rewrite fmap_cons, monitor_loop_step, Hnow, (receive_broken e s He). simpl snd.
    rewrite IH. simpl. by rewrite <- app_assoc.
Qed.

(** X15: the loop does not notice that the connection is gone: when every
    receive fails with the same exception (other than the timeout) it neither
    stops nor reconnects nor touches the metrics, but prints one error line
    per turn for as long as the duration check does not fire. *)
Theorem lost_connection_is_reported_every_turn (duration : option Z) (start_time : Q)
    (e : exn) (times : list Q) (s : MM.self) :
  e ≠ TimeoutError →
  Forall (λ now, MM.expired duration start_time now = false) times →
  MM.connect_and_monitor duration start_time None
    ((λ now, (now, MM.Broken e)) <$> times) s
  = (Pending,
     {| MM.ws_url := MM.ws_url s; MM.metrics := MM.metrics s;
        MM.console :=
          MM.console s
          ++ [Lit "Connected to metrics WebSocket: "; Lit (MM.ws_url s)]
             :: replicate (length times) (error_line e) |}).
Proof.
  intros He Htimes. rewrite connect_and_monitor_run.
  rewrite (monitor_loop_broken duration start_time e times He Htimes). simpl.
  by rewrite <- app_assoc.
Qed.

Lemma lost_connection_is_reported_every_turn_witness :
  MM.console
    (MM.connect_and_monitor None 0 None
       [(1%Q, MM.Broken ConnectionClosed); (2%Q, MM.Broken ConnectionClosed)]
       (MM.__init__ MM.default_ws_url)).2
  = [[Lit "Connected to metrics WebSocket: "; Lit MM.default_ws_url];
     error_line ConnectionClosed; error_line ConnectionClosed].
Proof.
  assert (Hno : ConnectionClosed ≠ TimeoutError) by discriminate.
  assert (Hfeed : Forall (λ now, MM.expired None 0 now = false) [1%Q; 2%Q])
    by (by repeat constructor).
  exact (f_equal (λ p : outcome unit * MM.self, MM.console p.2)
           (lost_connection_is_reported_every_turn None 0 ConnectionClosed [1%Q; 2%Q]
              (MM.__init__ MM.default_ws_url) Hno Hfeed)).
Defined.

Lemma monitor_loop_returns_iff (duration : option Z) (start_time : Q)
    (feed : list (Q * MM.received)) (s : MM.self) :
  (MM.monitor_loop duration start_time feed s).1 = Return tt
  ↔ Exists (λ turn, MM.expired duration start_time turn.1 = true) feed.
Proof.
  revert s. induction feed as [|[now r] feed IH]; intros s.
  - split; [discriminate | by intros ?%Exists_nil].
  - rewrite monitor_loop_step, Exists_cons. simpl.
    destruct (MM.expired duration start_time now) eqn:Hnow.
    + split; [by left | done].
    + rewrite IH. split; [by right | by intros [?|?]].
Qed.

Lemma monitor_metrics_example_run (start_time : Q) (feed : list (Q * MM.received)) :
  monitor_metrics_example start_time None feed =
  match MM.monitor_loop (Some 30) start_time feed
          {| MM.ws_url := MM.default_ws_url;
             MM.metrics := MM.metrics (MM.__init__ MM.default_ws_url);
             MM.console :=
               [[Lit "Starting real-time metrics monitoring for 30 seconds..."];
                [Lit "Connected to metrics WebSocket: "; Lit MM.default_ws_url]] |}
  with
  | (Return _, s') => MM.print [Lit (newline +:+ "Monitoring complete!")] s'
  | (Raise e, s') => (Raise e, s')
  | (Pending, s') => (Pending, s')
  end.
Proof. reflexivity. Qed.

(** X16: the example monitors for thirty seconds: once connected it never
    raises; it returns only if some clock reading of the loop is more than
    thirty seconds after the start, it does return (after printing that
    monitoring is complete) when some reading is a second or more beyond the
    thirty, and it is still listening as long as every reading is within
    them; if the connection cannot be made, the exception comes out and
    nothing more is printed.  (The second of margin keeps the statement clear
    of the rounding of Python's double subtraction.) *)
Theorem example_monitors_thirty_seconds (start_time : Q) (feed : list (Q * MM.received)) :
  ((monitor_metrics_example start_time None feed).1 = Return tt →
   Exists (λ turn, (30 < turn.1 - start_time)%Q) feed)
  ∧ (Exists (λ turn, (31 <= turn.1 - start_time)%Q) feed →
     (monitor_metrics_example start_time None feed).1 = Return tt
     ∧ last (MM.console (monitor_metrics_example start_time None feed).2)
       = Some [Lit (newline +:+ "Monitoring complete!")])
  ∧ (Forall (λ turn, (turn.1 - start_time <= 30)%Q) feed →
     (monitor_metrics_example start_time None feed).1 = Pending)
  ∧ (∀ e, (monitor_metrics_example start_time None feed).1 ≠ Raise e)
  ∧ (∀ e, (monitor_metrics_example start_time (Some e) feed).1 = Raise e
          ∧ MM.console (monitor_metrics_example start_time (Some e) feed).2
            = [[Lit "Starting real-time metrics monitoring for 30 seconds..."]]).
Proof.
  assert (Hiff : ∀ s, (MM.monitor_loop (Some 30) start_time feed s).1 = Return tt
                      ↔ Exists (λ turn, (30 < turn.1 - start_time)%Q) feed).
  { intros s. rewrite monitor_loop_returns_iff. apply Exists_proper; [|done].
    intros turn. rewrite expired_spec. split.
    - by intros (n & [= <-] & _ & Hlt).
    - intros Hlt. by exists 30. }
  assert (Hnr : ∀ s e, (MM.monitor_loop (Some 30) start_time feed s).1 ≠ Raise e).
  { intros s e H.
    destruct (decide (Exists (λ turn, MM.expired (Some 30) start_time turn.1 = true) feed))
      as [Hex|Hno].
    - apply (monitor_loop_returns_iff _ _ _ s) in Hex. rewrite Hex in H. discriminate.
    - apply not_Exists_Forall in Hno; [|intros turn; apply _].
      rewrite monitor_loop_pending in H; [discriminate|].
      eapply Forall_impl; [exact Hno|]. intros turn. simpl.
      apply not_true_is_false. }
  assert (Hlate : Exists (λ turn, (31 <= turn.1 - start_time)%Q) feed →
                  Exists (λ turn, (30 < turn.1 - start_time)%Q) feed).
  { intros H. eapply Exists_impl; [exact H|]. intros turn. apply (Qlt_succ_le 30). }
  assert (Hearly : ∀ s, Forall (λ turn, (turn.1 - start_time <= 30)%Q) feed →
                        (MM.monitor_loop (Some 30) start_time feed s).1 = Pending).
  { intros s H. apply monitor_loop_pending.
    eapply Forall_impl; [exact H|]. intros turn. apply (not_expired_spec 30). }
  split; [|split; [|split; [|split]]]; [| | | | by intros e];
    rewrite monitor_metrics_example_run;
    match goal with |- context [MM.monitor_loop (Some 30) start_time feed ?s] =>
      specialize (Hiff s); specialize (Hnr s); specialize (Hearly s);
      destruct (MM.monitor_loop (Some 30) start_time feed s) as [[[]|e|] s']
    end; simpl in *; try done; try (by destruct (Hnr e)).
  all: try (intros H; apply Hlate, Hiff in H; done).
  all: try (intros _; by apply Hiff).
  intros _. by rewrite last_snoc.
Qed.

Lemma example_monitors_thirty_seconds_witness :
  (monitor_metrics_example 0 None [(10%Q, MM.Silence); (31%Q, MM.Silence)]).1 = Return tt
  ∧ last (MM.console
            (monitor_metrics_example 0 None [(10%Q, MM.Silence); (31%Q, MM.Silence)]).2)
    = Some [Lit (newline +:+ "Monitoring complete!")].
Proof.
  apply (example_monitors_thirty_seconds 0 [(10%Q, MM.Silence); (31%Q, MM.Silence)]).
  apply Exists_cons_tl, Exists_cons_hd. by vm_compute.
Defined.

(** X17: the display copes with missing data but not with data of the wrong
    shape: when both stored values are falsy ([None] before the first
    message, but also an empty dictionary) it prints the title and the two
    rules and nothing else; when the stored [lucidLink] is truthy but not a
    dictionary it raises [AttributeError] after the title and the first
    rule, and the metrics stay as they are. *)
Theorem display_metrics_edges (title : string) (s : MM.self) (ll s3 : json) :
  MM.metrics s !! "lucidLink" = Some ll →
  MM.metrics s !! "s3Health" = Some s3 →
  let header := [[Lit (String (ascii_of_nat 10) EmptyString); Lit title]; [Lit MM.rule]] in
  (truthy ll = false → truthy s3 = false →
   MM._display_metrics title s
   = (Return tt,
      {| MM.ws_url := MM.ws_url s; MM.metrics := MM.metrics s;
         MM.console := MM.console s ++ header ++ [[Lit MM.rule]] |}))
  ∧ (truthy ll = true → (∀ fields, ll ≠ JObj fields) →
     MM._display_metrics title s
     = (Raise AttributeError,
        {| MM.ws_url := MM.ws_url s; MM.metrics := MM.metrics s;
           MM.console := MM.console s ++ header |})).
Proof.
  intros Hll Hs3 header. unfold MM._display_metrics, bind, MM.get_metric, MM.print.
  simpl. rewrite Hll. split.
  - intros Hl Hs. rewrite Hl. simpl. rewrite Hs3. simpl. rewrite Hs. simpl.
    by rewrite <- !app_assoc.
  - intros Hl Hshape. rewrite Hl. simpl. rewrite Hll.
    destruct ll as [| | | | | |fields]; simpl; try (by rewrite <- !app_assoc).
    by destruct (Hshape fields).
Qed.

Lemma display_metrics_edges_witness :
  MM._display_metrics "Initial metrics received" (MM.__init__ MM.default_ws_url)
  = (Return tt,
     {| MM.ws_url := MM.default_ws_url;
        MM.metrics := MM.metrics (MM.__init__ MM.default_ws_url);
        MM.console :=
          [[Lit (String (ascii_of_nat 10) EmptyString); Lit "Initial metrics received"];
           [Lit MM.rule]; [Lit MM.rule]] |}).
Proof.
  apply (display_metrics_edges "Initial metrics received" (MM.__init__ MM.default_ws_url)
           JNull JNull); reflexivity.
Defined.

(** ** The example script *)

Lemma print_run (line : list fragment) (w : world) :
  print line w = (Return tt, record (Printed line) w).
Proof. reflexivity. Qed.

(** X18: the script gives up at the first failure: if the health check does
    not succeed (failure status, refused connection, undecodable body),
    [main] raises that error after one printed line and one request; no
    metrics are read and no job is created. *)
Theorem main_stops_when_health_check_fails (py_repr : json → string)
    (keys_in_order : gmap string json → list string) (characters : string → list string)
    (w : world) (a : reply) (rest : list reply) (e : exn) :
  script w = a :: rest →
  reply_outcome a = Raise e →
  main py_repr keys_in_order characters w
  = (Raise e,
     {| script := rest;
        log := log w ++ [Printed [Lit "Checking API health..."];
                         Http (request_for sample_client HealthCheck) (Some a)] |}).
Proof.
  intros Hs Ho. unfold main. cbv zeta.
  rewrite bind_run, print_run. cbv beta iota.
  rewrite bind_run.
  change (health_check ?c) with (perform c HealthCheck).
  rewrite perform_run. simpl reaches_network. cbv iota.
  change (script (record ?ev w)) with (script w). rewrite Hs, Ho.
  unfold record. simpl. by rewrite <- app_assoc.
Qed.

Lemma main_stops_when_health_check_fails_witness :
  main (λ _, "") (λ _, []) (λ _, [])
    {| script := [sample_outage; sample_metrics]; log := [] |}
  = (Raise (HTTPError 503),
     {| script := [sample_metrics];
        log := [Printed [Lit "Checking API health..."];
                Http (request_for sample_client HealthCheck) (Some sample_outage)] |}).
Proof.
  apply (main_stops_when_health_check_fails (λ _, "") (λ _, []) (λ _, [])
           {| script := [sample_outage; sample_metrics]; log := [] |}
           sample_outage [sample_metrics] (HTTPError 503)); reflexivity.
Defined.

Lemma moves_fixed2 {S} (R : S → S → Prop) (v : json) :
  (∀ s, R s s) → moves R (fixed2 v).
Proof.
  intros Hrefl. unfold fixed2.
  destruct v; try case_match; first [by apply moves_ret | by apply moves_raise].
Qed.

Lemma moves_py_iter {S} (R : S → S → Prop) (keys_in_order : gmap string json → list string)
    (characters : string → list string) (v : json) :
  (∀ s, R s s) → moves R (py_iter keys_in_order characters v).
Proof.
  intros Hrefl. unfold py_iter.
  destruct v; first [by apply moves_ret | by apply moves_raise].
Qed.

Lemma moves_for_each {S} (R : S → S → Prop) (items : list json) (body : json → M S unit) :
  (∀ s, R s s) → (∀ s1 s2 s3, R s1 s2 → R s2 s3 → R s1 s3) →
  (∀ item, moves R (body item)) → moves R (for_each items body).
Proof.
  intros Hrefl Htrans Hbody. induction items as [|item items IH]; simpl.
  - by apply moves_ret.
  - apply moves_bind; [done | apply Hbody | by intros _].
Qed.

Lemma moves_weaken (φ ψ : event → Prop) {A} (c : M world A) :
  (∀ ev, φ ev → ψ ev) → moves (grows_by φ) c → moves (grows_by ψ) c.
Proof. intros Himp Hc w. eapply grows_by_weaken; [exact Himp | apply Hc]. Qed.

Lemma polling_is_main_event (job_id : string) (ev : event) :
  polling_event sample_client job_id 5 ev → main_event ev.
Proof.
  destruct ev as [r a| |]; simpl; try done. intros ->. do 4 right. by exists job_id.
Qed.

(** X19: whatever the service answers, the example script talks to it in five
    ways only: the health check, the metrics request, the creation of one job
    for [Projects/2024/Q1], status polls five seconds apart, and the listing
    of page 1 with limit 5 and no status filter; in particular it never
    cancels a job. *)
Theorem main_only_makes_its_calls (py_repr : json → string)
    (keys_in_order : gmap string json → list string) (characters : string → list string)
    (w : world) :
  let out := emitted (main py_repr keys_in_order characters) w in
  Forall main_event out
  ∧ Forall (λ r, req_method r ≠ DELETE) (requests out).
Proof.
  assert (Hmain : moves (grows_by main_event) (main py_repr keys_in_order characters)).
  { unfold main. cbv zeta.
    repeat first
      [ by apply print_grows_by
      | apply (perform_grows_by main_event sample_client HealthCheck);
          intros; simpl; tauto
      | apply (perform_grows_by main_event sample_client GetMetrics);
          intros; simpl; tauto
      | apply (perform_grows_by main_event sample_client
                 (CreateCacheJob None (Some ["Projects/2024/Q1"]) true));
          intros; simpl; tauto
      | apply (perform_grows_by main_event sample_client (ListJobs 1 5 None));
          intros; simpl; tauto
      | match goal with
        | |- moves _ (monitor_job _ ?id _ ?cb) =>
            apply (moves_weaken (polling_event sample_client id 5) main_event);
            [ apply polling_is_main_event
            | apply (monitor_job_grows_by sample_client id 5 cb) ]
        end
      | apply (moves_ret _ (grows_by_refl _))
      | apply (moves_getitem _ (grows_by_refl _))
      | apply (moves_fixed2 _ _ (grows_by_refl _))
      | apply (moves_py_iter _ _ _ _ (grows_by_refl _))
      | apply (moves_for_each _ _ _ (grows_by_refl _) (grows_by_trans _)); intros ?
      | apply (moves_bind _ (grows_by_trans _)); [| intros ?]
      | match goal with |- moves _ (if ?b then _ else _) => destruct b end ]. }
  destruct (Hmain w) as (out & Hlog & Hout).
  cbv zeta. rewrite (emitted_app _ _ out) by exact Hlog.
  split; [exact Hout|].
  clear Hlog. induction Hout as [|ev out Hev _ IH]; [constructor|].
  destruct ev as [r a| |]; simpl; try exact IH.
  constructor; [|exact IH]. simpl in Hev.
  destruct Hev as [-> | [-> | [-> | [-> | [job_id ->]]]]]; discriminate.
Qed.

(** A run of the script in which the service reports no metrics, creates the
    job, shows it completed at the first poll and lists it. *)
Example main_runs_to_the_end :
  (main (λ _, "") (λ _, []) (λ _, [])
     {| script := [sample_health; sample_metrics; sample_created "job-2";
                   sample_poll "completed"; sample_listing];
        log := [] |}).1
  = Return tt.
Proof. vm_compute. reflexivity. Qed.

(** ** Polling with a callback *)

Lemma sleep_grows_by (φ : event → Prop) (seconds : Z) :
  φ (Slept seconds) → moves (grows_by φ) (sleep seconds).
Proof.
  intros H. unfold sleep.
  repeat case_match; try (apply moves_raise; apply grows_by_refl).
  intros w. by apply grows_by_record.
Qed.

Lemma call_grows_by (φ : event → Prop) (f : callback) (job : json) :
  moves (grows_by φ) (call f job).
Proof.
  unfold call.
  destruct (f job); [apply moves_raise | apply moves_ret]; apply grows_by_refl.
Qed.

Lemma monitor_loop_with_callback (fuel : nat) (c : self) (job_id : string) (interval : Z)
    (f : callback) :
  moves (grows_by (silent_polling_event c job_id interval))
    (monitor_loop fuel c job_id interval (Some f)).
Proof.
  induction fuel as [|fuel IH]; [intros w; apply grows_by_refl|].
  rewrite monitor_loop_S.
  repeat first
    [ apply IH
    | by apply print_grows_by
    | by apply sleep_grows_by
    | apply call_grows_by
    | apply perform_grows_by; by intros
    | apply (moves_ret _ (grows_by_refl _))
    | apply (moves_getitem _ (grows_by_refl _))
    | apply (moves_bind _ (grows_by_trans _)); [| intros ?]
    | match goal with |- moves _ (if ?b then _ else _) => destruct b end ].
Qed.

(** X20: a callback replaces the progress display: with a callback,
    [monitor_job] itself puts nothing on the console but the empty line it
    prints when it returns, whatever the replies are. *)
Theorem callback_replaces_progress_display (c : self) (job_id : string) (interval : Z)
    (f : callback) (w : world) :
  Forall (silent_polling_event c job_id interval)
    (emitted (monitor_job c job_id interval (Some f)) w).
Proof.
  destruct (monitor_loop_with_callback (S (length (script w))) c job_id interval f w)
    as (out & Hlog & Hout).
  by rewrite (emitted_app _ _ out) by exact Hlog.
Qed.

(** ** A batch that the service answers to its end *)

Section Stalls.

Context {S : Type} (π : S → world).






End Stalls.















